(** * MJ TV: a shallow embedding of the application logic

    The development follows the layout of the TypeScript sources:

    - [JsString]      the string primitives the code relies on
                      ([includes], [toLowerCase], [endsWith]);
    - [Channel], [DEFAULT_CHANNELS]   (types.ts, constants.ts);
    - [Platform]      the browser services the code calls: local storage,
                      the JSON codec and [fetch], with the exceptions they
                      raise, and the state-and-exception monad [M] in which
                      the service code is written;
    - [DBService], [AuthService]      (services/db.ts, services/auth.ts);
    - [App], [LoginModal]             (App.tsx, components/LoginModal.tsx);
    - [VideoPlayer]                   (components/VideoPlayer.tsx);
    - [GeminiLive], [VoiceRemote]     (services/geminiLive.ts,
                                       components/VoiceRemote.tsx).

    Definitions come first, the theorems about them afterwards. *)

From Stdlib Require Import String Ascii ZArith NArith QArith List Bool Lia.
From Stdlib Require Import DecimalString.
From stdpp Require Import base option gmap strings list fin_maps sorting.
From Ceres Require Import Ceres.
Import ListNotations.
Local Open Scope string_scope.
Local Open Scope list_scope.
#[local] Set Warnings "-clear-no-such-hyp".

(* ===================================================================== *)
(** ** String primitives                                                  *)
(* ===================================================================== *)

Module JsString.

(** [hay.includes(needle)]: [needle] occurs somewhere in [hay]. *)
Fixpoint includes (hay needle : string) : bool :=
  if String.prefix needle hay then true
  else match hay with
       | EmptyString => false
       | String _ rest => includes rest needle
       end.


(** [toLowerCase] on the ASCII letters.  Strings are byte strings here, so
    the bytes of a non-ASCII letter (an accented capital, say) are left as
    they are, where JavaScript would map the letter to its lower case. *)
Definition lower_ascii (a : ascii) : ascii :=
  let n := N_of_ascii a in
  if ((65 <=? n) && (n <=? 90))%N then ascii_of_N (n + 32) else a.

Fixpoint toLowerCase (s : string) : string :=
  match s with
  | EmptyString => EmptyString
  | String a rest => String (lower_ascii a) (toLowerCase rest)
  end.

(** A string is truthy when it is not empty. *)
Definition truthy (s : string) : bool :=
  match s with EmptyString => false | _ => true end.

End JsString.

(* ===================================================================== *)
(** ** types.ts and constants.ts                                          *)
(* ===================================================================== *)

(** [rating?: number] and [isFavorite?: boolean] are optional fields: [None]
    is JavaScript's [undefined].  Ratings are only stored and copied, never
    computed with, so a number is represented by the rational it is written
    as. *)
Record Channel : Type := mkChannel {
  id : string;
  name : string;
  category : string;
  description : string;
  videoUrl : string;
  thumbnail : string;
  currentProgram : string;
  rating : option Q;
  isFavorite : option bool
}.

Inductive ConnectionState := DISCONNECTED | CONNECTING | CONNECTED | ERROR.

(** Truthiness of an optional boolean: [undefined] and [false] are falsy. *)
Definition truthy_flag (b : option bool) : bool :=
  match b with Some true => true | _ => false end.

(** [{ ...c, isFavorite: v }] and [{ ...c, rating: r }]. *)
Definition with_isFavorite (c : Channel) (v : bool) : Channel :=
  mkChannel (id c) (name c) (category c) (description c) (videoUrl c)
            (thumbnail c) (currentProgram c) (rating c) (Some v).

Definition with_rating (c : Channel) (r : Q) : Channel :=
  mkChannel (id c) (name c) (category c) (description c) (videoUrl c)
            (thumbnail c) (currentProgram c) (Some r) (isFavorite c).

Definition LIVE_STREAM_URL : string :=
  "https://live20.bozztv.com/akamaissh101/ssh101/evtele2xrdc/playlist.m3u8".

Definition DEFAULT_CHANNELS : list Channel :=
  [ mkChannel "live1" "MJ TV Info" "Information" "Diffusion en direct."
      LIVE_STREAM_URL "https://picsum.photos/id/1018/400/225" "Le Journal"
      (Some 4.9%Q) (Some true);
    mkChannel "nature1" "Nature Zen" "Documentaire"
      "Paysages apaisants et vie sauvage en haute définition."
      LIVE_STREAM_URL "https://picsum.photos/id/1018/400/225"
      "Merveilles de la Forêt" (Some 4.5%Q) None;
    mkChannel "cine1" "Ciné Classique" "Cinéma"
      "Les grands classiques du cinéma d'animation."
      LIVE_STREAM_URL "https://picsum.photos/id/1025/400/225"
      "Le Grand Lapin" (Some 3.8%Q) None;
    mkChannel "toon1" "Toon TV" "Enfants"
      "Dessins animés et aventures pour les plus jeunes."
      LIVE_STREAM_URL "https://picsum.photos/id/1040/400/225"
      "La Quête du Dragon" (Some 4.2%Q) None;
    mkChannel "sport1" "Sport Extrême" "Sport"
      "Adrénaline pure et compétitions de haut niveau."
      LIVE_STREAM_URL "https://picsum.photos/id/1035/400/225"
      "Championnat de Glisse" (Some 4.7%Q) None ].

(* ===================================================================== *)
(** ** The browser platform                                               *)
(* ===================================================================== *)

Module Platform.

(** Exceptions the platform raises (a rejected promise is a thrown
    exception at the [await]). *)
Inductive Error :=
| SecurityError        (* storage access denied *)
| QuotaExceededError   (* storage full *)
| SyntaxError          (* JSON.parse on malformed text *)
| TypeError.           (* fetch rejected: the network failed *)

(** *** Local storage *)

Record LocalStorage : Type := mkStorage {
  items : gmap string string;
  quota : N;        (* characters the store can hold *)
  denied : bool     (* every access throws SecurityError *)
}.

Definition storage_size (m : gmap string string) : N :=
  map_fold (fun k v acc => acc + N.of_nat (String.length k + String.length v))%N
           0%N m.

(** *** The JSON codec

    [JSON.parse] returns a value of any shape; what the code asks of it is
    whether it is an array, and how long.  Under the declared types an
    array is an array of channels. *)
Inductive JsonValue :=
| JArray (cs : list Channel)
| JOther.

Record JsonCodec : Type := mkCodec {
  JSON_stringify : list Channel -> string;
  JSON_parse : string -> option JsonValue   (* None: throws SyntaxError *)
}.

(** *** fetch *)
Inductive FetchOutcome :=
| FetchRejected                           (* network failure *)
| FetchResponse (ok : bool) (body : string).

Record World : Type := mkWorld {
  localStorage : LocalStorage;
  network : string -> FetchOutcome
}.

Definition set_localStorage (w : World) (ls : LocalStorage) : World :=
  mkWorld ls (network w).

Definition set_items (ls : LocalStorage) (m : gmap string string)
  : LocalStorage :=
  mkStorage m (quota ls) (denied ls).

(** *** State and exceptions *)
Inductive Result (A : Type) :=
| Return (a : A)
| Throw (e : Error).
Arguments Return {A} a.
Arguments Throw {A} e.

Definition M (A : Type) : Type := World -> Result A * World.

Definition ret {A} (a : A) : M A := fun w => (Return a, w).

Definition bind {A B} (m : M A) (k : A -> M B) : M B :=
  fun w => match m w with
           | (Return a, w') => k a w'
           | (Throw e, w') => (Throw e, w')
           end.

Definition throw {A} (e : Error) : M A := fun w => (Throw e, w).

(** [try { m } catch (e) { h e }] *)
Definition try_catch {A} (m : M A) (h : Error -> M A) : M A :=
  fun w => match m w with
           | (Return a, w') => (Return a, w')
           | (Throw e, w') => h e w'
           end.

(** The value a run returned, if it did not throw. *)
Definition returned {A} (run : Result A * World) : option A :=
  match fst run with
  | Return a => Some a
  | Throw _ => None
  end.

Declare Scope js_scope.
Delimit Scope js_scope with js.
Notation "'let*' x ':=' m 'in' k" := (bind m (fun x => k))
  (at level 10, x name, m at level 100, k at level 200) : js_scope.
Notation "m ';;;' k" := (bind m (fun _ => k))
  (at level 100, k at level 200, right associativity) : js_scope.

Definition getItem (key : string) : M (option string) :=
  fun w =>
    let ls := localStorage w in
    if denied ls then (Throw SecurityError, w)
    else (Return (items ls !! key), w).

Definition setItem (key value : string) : M unit :=
  fun w =>
    let ls := localStorage w in
    if denied ls then (Throw SecurityError, w)
    else
      let items' := <[key := value]> (items ls) in
      if (storage_size items' <=? quota ls)%N
      then (Return tt, set_localStorage w (set_items ls items'))
      else (Throw QuotaExceededError, w).

Definition removeItem (key : string) : M unit :=
  fun w =>
    let ls := localStorage w in
    if denied ls then (Throw SecurityError, w)
    else (Return tt, set_localStorage w (set_items ls (delete key (items ls)))).

Definition fetch (url : string) : M (bool * string) :=
  fun w => match network w url with
           | FetchRejected => (Throw TypeError, w)
           | FetchResponse ok body => (Return (ok, body), w)
           end.

Definition parse (J : JsonCodec) (text : string) : M JsonValue :=
  match JSON_parse J text with
  | Some v => ret v
  | None => throw SyntaxError
  end.

(** [Array.isArray(v) && v.length > 0], returning the array. *)
Definition nonempty_array (v : JsonValue) : option (list Channel) :=
  match v with
  | JArray (c :: cs) => Some (c :: cs)
  | _ => None
  end.

End Platform.

Import Platform.
Local Open Scope js_scope.

(* ===================================================================== *)
(** ** services/db.ts                                                     *)
(* ===================================================================== *)

Module DBService.

Definition STORAGE_KEY : string := "mj_tv_data_v2".
Definition JSON_SOURCE : string := "channels.json".

Section WithCodec.
Variable J : JsonCodec.

(** The first source of [init]: the stored text, if there is one, it is
    not empty, it parses, and it is a non-empty array.  A parse error is
    caught on the spot ([console.warn]) and the source is skipped. *)
Definition from_storage (storedData : option string)
  : M (option (list Channel)) :=
  match storedData with
  | Some text =>
      if JsString.truthy text then
        try_catch
          (let* parsed := parse J text in ret (nonempty_array parsed))
          (fun _ => ret None)
      else ret None
  | None => ret None
  end.

(** The second source: the seed file.  Everything from the [fetch] to
    the [setItem] that caches the list sits in one [try]; whatever is
    thrown there is caught ([console.warn]) and the source is skipped. *)
Definition from_json_file : M (option (list Channel)) :=
  try_catch
    (let* response := fetch JSON_SOURCE in
     if fst response then
       let* body := parse J (snd response) in
       match nonempty_array body with
       | Some channels =>
           setItem STORAGE_KEY (JSON_stringify J channels) ;;;
           ret (Some channels)
       | None => ret None
       end
     else ret None)
    (fun _ => ret None).

Definition init : M (list Channel) :=
  try_catch
    (let* storedData := getItem STORAGE_KEY in
     let* stored := from_storage storedData in
     match stored with
     | Some parsed => ret parsed
     | None =>
         let* fetched := from_json_file in
         match fetched with
         | Some channels => ret channels
         | None =>
             setItem STORAGE_KEY (JSON_stringify J DEFAULT_CHANNELS) ;;;
             ret DEFAULT_CHANNELS
         end
     end)
    (fun _ => ret DEFAULT_CHANNELS).

Definition saveAllChannels (channels : list Channel) : M unit :=
  try_catch
    (setItem STORAGE_KEY (JSON_stringify J channels))
    (fun _ => ret tt).

Definition updateChannel (channel : Channel) : M unit :=
  let* allChannels := init in
  saveAllChannels
    (map (fun c => if String.eqb (id c) (id channel) then channel else c)
         allChannels).

End WithCodec.

End DBService.

(* ===================================================================== *)
(** ** services/auth.ts                                                   *)
(* ===================================================================== *)

Module AuthService.

Definition AUTH_KEY : string := "gemini_tv_auth".

Definition login (password : string) : M bool :=
  if String.eqb password "admin" then
    setItem AUTH_KEY "true" ;;; ret true
  else ret false.

Definition logout : M unit := removeItem AUTH_KEY.

Definition isAuthenticated : M bool :=
  let* v := getItem AUTH_KEY in
  ret (match v with Some s => String.eqb s "true" | None => false end).

End AuthService.

(* ===================================================================== *)
(** ** App.tsx                                                            *)
(* ===================================================================== *)

Module App.

Record State : Type := mkState {
  channels : list Channel;
  currentChannelId : string;
  isMenuOpen : bool;
  isAdminOpen : bool;
  isLoginOpen : bool;
  isLoading : bool
}.

(** [useState] initial values; the menu starts open on wide windows. *)
Definition initial (innerWidth : Z) : State :=
  mkState [] "" (1024 <=? innerWidth)%Z false false true.

Definition setChannels (cs : list Channel) (st : State) : State :=
  mkState cs (currentChannelId st) (isMenuOpen st) (isAdminOpen st)
          (isLoginOpen st) (isLoading st).

Definition setCurrentChannelId (i : string) (st : State) : State :=
  mkState (channels st) i (isMenuOpen st) (isAdminOpen st)
          (isLoginOpen st) (isLoading st).

Definition setIsMenuOpen (b : bool) (st : State) : State :=
  mkState (channels st) (currentChannelId st) b (isAdminOpen st)
          (isLoginOpen st) (isLoading st).

Definition setIsAdminOpen (b : bool) (st : State) : State :=
  mkState (channels st) (currentChannelId st) (isMenuOpen st) b
          (isLoginOpen st) (isLoading st).

Definition setIsLoginOpen (b : bool) (st : State) : State :=
  mkState (channels st) (currentChannelId st) (isMenuOpen st)
          (isAdminOpen st) b (isLoading st).

Definition setIsLoading (b : bool) (st : State) : State :=
  mkState (channels st) (currentChannelId st) (isMenuOpen st)
          (isAdminOpen st) (isLoginOpen st) b.

(** [channels.find(c => c.id === i)] *)
Definition find_by_id (i : string) (cs : list Channel) : option Channel :=
  find (fun c => String.eqb (id c) i) cs.

(** [a || b] on values that are an object or [undefined]. *)
Definition or_else {A} (a b : option A) : option A :=
  match a with Some _ => a | None => b end.

(** [channels.find(c => c.id === currentChannelId) || channels[0]] *)
Definition currentChannel (st : State) : option Channel :=
  or_else (find_by_id (currentChannelId st) (channels st))
          (head (channels st)).

Section WithCodec.
Variable J : JsonCodec.

(** The mount effect.  [DBService.init] is awaited inside a [try] whose
    [catch] only logs, and [finally] clears the loading flag. *)
Definition initApp (st : State) : M State :=
  let* st1 :=
    try_catch
      (let* loadedChannels := DBService.init J in
       let st1 := setChannels loadedChannels st in
       ret (match loadedChannels with
            | c :: _ => setCurrentChannelId (id c) st1
            | [] => st1
            end))
      (fun _ => ret st) in
  ret (setIsLoading false st1).

Definition handleSaveChannels (updatedChannels : list Channel) (st : State)
  : M State :=
  let st1 := setChannels updatedChannels st in
  try_catch (DBService.saveAllChannels J updatedChannels)
            (fun _ => ret tt) ;;;
  ret (match find_by_id (currentChannelId st) updatedChannels,
             updatedChannels with
       | None, c :: _ => setCurrentChannelId (id c) st1
       | _, _ => st1
       end).

Definition handleRateChannel (r : Q) (st : State) : M State :=
  match currentChannel st with
  | None => ret st
  | Some cur =>
      handleSaveChannels
        (map (fun c => if String.eqb (id c) (id cur)
                       then with_rating c r else c)
             (channels st))
        st
  end.

Definition toggled (channelId : string) (cs : list Channel)
  : list Channel :=
  map (fun c => if String.eqb (id c) channelId
                then with_isFavorite c (negb (truthy_flag (isFavorite c)))
                else c)
      cs.

Definition handleToggleFavorite (channelId : string) (st : State)
  : M State :=
  handleSaveChannels (toggled channelId (channels st)) st.

End WithCodec.

(** The three lookups of [handleChannelChange], tried in this order. *)
Definition find_target (i : string) (cs : list Channel) : option Channel :=
  or_else (find_by_id i cs)
    (or_else
       (find (fun c => JsString.includes (JsString.toLowerCase (name c))
                                         (JsString.toLowerCase i)) cs)
       (find (fun c => JsString.includes (id c) i) cs)).

Definition handleChannelChange (innerWidth : Z) (i : string) (st : State)
  : State :=
  match find_target i (channels st) with
  | Some target =>
      let st1 := setCurrentChannelId (id target) st in
      if (innerWidth <? 1024)%Z then setIsMenuOpen false st1 else st1
  | None => st
  end.

Definition handleOpenAdmin (st : State) : M State :=
  let* authenticated := AuthService.isAuthenticated in
  ret (if authenticated then setIsAdminOpen true st
       else setIsLoginOpen true st).

Definition handleLoginSuccess (st : State) : State :=
  setIsAdminOpen true (setIsLoginOpen false st).

End App.

(* ===================================================================== *)
(** ** components/LoginModal.tsx                                          *)
(* ===================================================================== *)

Module LoginModal.

Record State : Type := mkState {
  password : string;
  error : bool;
  isLoading : bool;
  showPassword : bool;
  shake : bool
}.

(** The field is pre-filled with the default password. *)
Definition initial : State := mkState "admin" false false false false.

(** Typing in the field: [setPassword(value); setError(false)]. *)
Definition onChange (value : string) (st : State) : State :=
  mkState value false (isLoading st) (showPassword st) (shake st).

Inductive Outcome :=
| Ignored               (* the early return: nothing was submitted *)
| LoggedIn              (* [onSuccess] was called *)
| Refused               (* the error branch *)
| Unhandled (e : Error). (* [AuthService.login] threw; nothing catches it *)

(** [handleSubmit]: the component state it leaves and how it ended. *)
Definition handleSubmit (st : State) (w : World) : State * Outcome * World :=
  if negb (JsString.truthy (password st)) then (st, Ignored, w)
  else
    let st1 := mkState (password st) false true (showPassword st) (shake st) in
    match AuthService.login (password st) w with
    | (Return true, w') => (st1, LoggedIn, w')
    | (Return false, w') =>
        (mkState "" true false (showPassword st) true, Refused, w')
    | (Throw e, w') => (st1, Unhandled e, w')
    end.

(** The error banner ("Mot de passe incorrect") is rendered when [error]
    holds. *)
Definition error_indicator_shown (st : State) : bool := error st.

End LoginModal.

(* ===================================================================== *)
(** ** components/VideoPlayer.tsx                                         *)
(* ===================================================================== *)

Module VideoPlayer.

(** What [video.play()] gives back: nothing (browsers that predate the
    promise), a promise that resolves, or one that rejects. *)
Inductive PlayOutcome := PlayUndefined | PlayResolved | PlayRejected.

Record Browser : Type := mkBrowser {
  hlsSupported : bool;              (* Hls.isSupported() *)
  nativeHls : bool;                 (* video.canPlayType(...) is not empty *)
  playResult : bool -> PlayOutcome  (* by the [muted] flag at the call *)
}.

(** hls.js error events. *)
Inductive ErrorType :=
| NETWORK_ERROR | MEDIA_ERROR | KEY_SYSTEM_ERROR | MUX_ERROR | OTHER_ERROR.

Record ErrorData : Type := mkErrorData {
  fatal : bool;
  type : ErrorType
}.

(** The calls made on the video element and on the streaming client, in
    the order they are made. *)
Inductive Call :=
| VideoSetSrc (url : string)
| VideoRemoveSrc
| VideoLoad
| VideoPlay (muted : bool)
| VideoPause
| VideoOnceLoadedMetadata
| HlsCreate
| HlsLoadSource (url : string)
| HlsAttachMedia
| HlsStartLoad
| HlsRecoverMediaError
| HlsDestroy.

Record State : Type := mkState {
  isMuted : bool;
  isPlaying : bool;
  isBuffering : bool;
  volume : Q;
  videoMuted : bool;        (* video.muted *)
  videoVolume : Q;          (* video.volume *)
  hlsRef : bool;            (* hlsRef.current holds a client *)
  calls : list Call
}.

(** [useState] initial values. *)
Definition initial : State :=
  mkState false false true 1 false 1 false [].

Definition setIsMuted (b : bool) (st : State) : State :=
  mkState b (isPlaying st) (isBuffering st) (volume st) (videoMuted st)
          (videoVolume st) (hlsRef st) (calls st).

Definition setIsPlaying (b : bool) (st : State) : State :=
  mkState (isMuted st) b (isBuffering st) (volume st) (videoMuted st)
          (videoVolume st) (hlsRef st) (calls st).

Definition setIsBuffering (b : bool) (st : State) : State :=
  mkState (isMuted st) (isPlaying st) b (volume st) (videoMuted st)
          (videoVolume st) (hlsRef st) (calls st).

Definition setVolume (v : Q) (st : State) : State :=
  mkState (isMuted st) (isPlaying st) (isBuffering st) v (videoMuted st)
          (videoVolume st) (hlsRef st) (calls st).

Definition set_videoMuted (b : bool) (st : State) : State :=
  mkState (isMuted st) (isPlaying st) (isBuffering st) (volume st) b
          (videoVolume st) (hlsRef st) (calls st).

Definition set_videoVolume (v : Q) (st : State) : State :=
  mkState (isMuted st) (isPlaying st) (isBuffering st) (volume st)
          (videoMuted st) v (hlsRef st) (calls st).

Definition set_hlsRef (b : bool) (st : State) : State :=
  mkState (isMuted st) (isPlaying st) (isBuffering st) (volume st)
          (videoMuted st) (videoVolume st) b (calls st).

Definition call (c : Call) (st : State) : State :=
  mkState (isMuted st) (isPlaying st) (isBuffering st) (volume st)
          (videoMuted st) (videoVolume st) (hlsRef st) (calls st ++ [c]).

(** [video.play()]: the call is logged with the element's [muted] flag. *)
Definition play (b : Browser) (st : State) : PlayOutcome * State :=
  (playResult b (videoMuted st), call (VideoPlay (videoMuted st)) st).

Definition attemptAutoPlay (b : Browser) (st : State) : State :=
  let st := setVolume 1 (set_videoVolume 1 st) in
  let st := setIsMuted false (set_videoMuted false st) in
  match play b st with
  | (PlayUndefined, st) => st
  | (PlayResolved, st) => setIsPlaying true st
  | (PlayRejected, st) =>
      let st := setIsMuted true (set_videoMuted true st) in
      let st := setVolume 1 (set_videoVolume 1 st) in
      match play b st with
      | (PlayRejected, st) => setIsPlaying false st
      | (_, st) => setIsPlaying true st
      end
  end.

(** [channel.videoUrl.includes('.m3u8')] *)
Definition isHlsSource (videoUrl : string) : bool :=
  JsString.includes videoUrl ".m3u8".

(** The body of the effect that runs when the channel changes (the video
    element is mounted: [videoRef.current] is not null). *)
Definition loadChannel (b : Browser) (videoUrl : string) (st : State)
  : State :=
  let st := setVolume 1 (set_videoVolume 1 st) in
  let st := setIsBuffering true st in
  let st := if hlsRef st then set_hlsRef false (call HlsDestroy st) else st in
  if isHlsSource videoUrl then
    if hlsSupported b then
      let st := set_hlsRef true (call HlsCreate st) in
      call HlsAttachMedia (call (HlsLoadSource videoUrl) st)
    else if nativeHls b then
      call VideoOnceLoadedMetadata (call (VideoSetSrc videoUrl) st)
    else st
  else
    let st := call VideoLoad (call (VideoSetSrc videoUrl) st) in
    attemptAutoPlay b st.

(** [Hls.Events.MANIFEST_PARSED], and the [loadedmetadata] listener of
    the native path: the same two statements. *)
Definition onManifestParsed (b : Browser) (st : State) : State :=
  attemptAutoPlay b (setIsBuffering false st).

Definition onLoadedMetadata (b : Browser) (st : State) : State :=
  attemptAutoPlay b (setIsBuffering false st).

(** [Hls.Events.ERROR] *)
Definition onHlsError (data : ErrorData) (st : State) : State :=
  if fatal data then
    match type data with
    | NETWORK_ERROR => call HlsStartLoad st
    | MEDIA_ERROR => call HlsRecoverMediaError st
    | _ => call HlsDestroy st
    end
  else st.

(** The effect's cleanup. *)
Definition cleanup (st : State) : State :=
  let st := if hlsRef st then call HlsDestroy st else st in
  call VideoLoad (call VideoRemoveSrc (call VideoPause st)).

(** Listeners on the video element. *)
Definition handlePlay (st : State) : State :=
  setIsBuffering false (setIsPlaying true st).
Definition handlePause (st : State) : State := setIsPlaying false st.
Definition handleWaiting (st : State) : State := setIsBuffering true st.
Definition handlePlaying (st : State) : State := setIsBuffering false st.

(** What is rendered: the centred play icon, and the buffering spinner
    that covers the player. *)
Definition playOverlayShown (st : State) : bool :=
  negb (isPlaying st) && negb (isBuffering st).

Definition bufferingOverlayShown (st : State) : bool := isBuffering st.

End VideoPlayer.

(* ===================================================================== *)
(** ** services/geminiLive.ts                                             *)
(* ===================================================================== *)

Module GeminiLive.

(** Resources held outside the program, by handle: microphone streams
    whose tracks are running, live sessions that are open, audio contexts
    that are open, audio nodes that are connected, and playback sources
    that were started and not stopped. *)
Record Native : Type := mkNative {
  liveStreams : gset nat;
  openSessions : gset nat;
  openContexts : gset nat;
  connectedNodes : gset nat;
  startedSources : gset nat;
  nextHandle : nat
}.

(** The fields of the service object. *)
Record Service : Type := mkService {
  ai : bool;
  inputAudioContext : option nat;
  outputAudioContext : option nat;
  nextStartTime : Q;
  sources : gset nat;
  session : option nat;
  stream : option nat;
  processor : option nat;
  inputSource : option nat
}.

Definition new_service : Service :=
  mkService false None None 0 ∅ None None None None.

Definition no_resources : Native := mkNative ∅ ∅ ∅ ∅ ∅ 0.

(** How a connection attempt goes: whether the user grants the microphone
    and whether the endpoint accepts the session. *)
Record Attempt : Type := mkAttempt {
  microphoneGranted : bool;
  sessionAccepted : bool
}.

(** [connect].  The result lists the status changes reported through
    [onStatusChange], in order. *)
Definition connect (a : Attempt) (s : Service) (n : Native)
  : Service * Native * list ConnectionState :=
  let h := nextHandle n in
  (* new GoogleGenAI, the two audio contexts *)
  let s1 := mkService true (Some h) (Some (S h)) (nextStartTime s)
                      (sources s) (session s) (stream s) (processor s)
                      (inputSource s) in
  let n1 := mkNative (liveStreams n) (openSessions n)
                     ({[h]} ∪ {[S h]} ∪ openContexts n)
                     (connectedNodes n) (startedSources n) (S (S h)) in
  if microphoneGranted a then
    (* getUserMedia *)
    let s2 := mkService true (Some h) (Some (S h)) (nextStartTime s)
                        (sources s) (session s) (Some (S (S h)))
                        (processor s) (inputSource s) in
    let n2 := mkNative ({[S (S h)]} ∪ liveStreams n) (openSessions n)
                       (openContexts n1) (connectedNodes n)
                       (startedSources n) (S (S (S h))) in
    if sessionAccepted a then
      (* this.session = await sessionPromise *)
      let s3 := mkService true (Some h) (Some (S h)) (nextStartTime s)
                          (sources s) (Some (S (S (S h)))) (Some (S (S h)))
                          (processor s) (inputSource s) in
      let n3 := mkNative (liveStreams n2) ({[S (S (S h))]} ∪ openSessions n)
                         (openContexts n1) (connectedNodes n)
                         (startedSources n) (S (S (S (S h)))) in
      (s3, n3, [CONNECTING])
    else (s2, n2, [CONNECTING; ERROR])
  else (s1, n1, [CONNECTING; ERROR]).

(** The [onopen] callback: the microphone is wired to the session. *)
Definition onopen (s : Service) (n : Native)
  : Service * Native * list ConnectionState :=
  match inputAudioContext s, stream s with
  | Some _, Some _ =>
      let h := nextHandle n in
      (mkService (ai s) (inputAudioContext s) (outputAudioContext s)
                 (nextStartTime s) (sources s) (session s) (stream s)
                 (Some (S h)) (Some h),
       mkNative (liveStreams n) (openSessions n) (openContexts n)
                ({[h]} ∪ {[S h]} ∪ connectedNodes n) (startedSources n)
                (S (S h)),
       [CONNECTED])
  | _, _ => (s, n, [CONNECTED])
  end.

(** The audio branch of [onmessage]: one more buffer is scheduled (when
    the output context is there and the data decodes). *)
Definition onAudio (decodes : bool) (s : Service) (n : Native)
  : Service * Native :=
  match outputAudioContext s with
  | Some _ =>
      if decodes then
        let h := nextHandle n in
        (mkService (ai s) (inputAudioContext s) (outputAudioContext s)
                   (nextStartTime s) ({[h]} ∪ sources s) (session s)
                   (stream s) (processor s) (inputSource s),
         mkNative (liveStreams n) (openSessions n) (openContexts n)
                  (connectedNodes n) ({[h]} ∪ startedSources n) (S h))
      else (s, n)
  | None => (s, n)
  end.

(** [stopAudioOutput]: every scheduled source is stopped, the set is
    cleared. *)
Definition stopAudioOutput (s : Service) (n : Native) : Service * Native :=
  (mkService (ai s) (inputAudioContext s) (outputAudioContext s) 0 ∅
             (session s) (stream s) (processor s) (inputSource s),
   mkNative (liveStreams n) (openSessions n) (openContexts n)
            (connectedNodes n) (startedSources n ∖ sources s)
            (nextHandle n)).

(** The [onclose] and [onerror] callbacks only report a status. *)
Definition onclose (s : Service) (n : Native)
  : Service * Native * list ConnectionState :=
  (s, n, [DISCONNECTED]).

Definition onerror (s : Service) (n : Native)
  : Service * Native * list ConnectionState :=
  (s, n, [ERROR]).

(** Releasing what an optional field refers to. *)
Definition release (field : option nat) (live : gset nat) : gset nat :=
  match field with
  | Some h => live ∖ {[h]}
  | None => live
  end.

(** [disconnect] (closing an audio context is taken to succeed). *)
Definition disconnect (s : Service) (n : Native) : Service * Native :=
  let n1 :=
    mkNative (release (stream s) (liveStreams n))
             (release (session s) (openSessions n))
             (release (outputAudioContext s)
                      (release (inputAudioContext s) (openContexts n)))
             (release (inputSource s)
                      (release (processor s) (connectedNodes n)))
             (startedSources n)
             (nextHandle n) in
  stopAudioOutput
    (mkService false None None (nextStartTime s) (sources s)
               None None None None)
    n1.

End GeminiLive.

(* ===================================================================== *)
(** ** components/VoiceRemote.tsx                                         *)
(* ===================================================================== *)

Module VoiceRemote.

Record State : Type := mkState {
  status : ConnectionState;
  transcript : string;
  service : GeminiLive.Service;
  native : GeminiLive.Native
}.

Definition initial : State :=
  mkState DISCONNECTED "" GeminiLive.new_service GeminiLive.no_resources.

(** [onStatusChange: (s) => setStatus(s)], applied to each report. *)
Definition report (changes : list ConnectionState) (st : ConnectionState)
  : ConnectionState :=
  fold_left (fun _ s => s) changes st.

Definition toggleConnection (a : GeminiLive.Attempt) (v : State) : State :=
  match status v with
  | CONNECTED | CONNECTING =>
      let '(s, n) := GeminiLive.disconnect (service v) (native v) in
      mkState DISCONNECTED "" s n
  | _ =>
      let '(s, n, changes) := GeminiLive.connect a (service v) (native v) in
      mkState (report changes (status v)) "Initialisation..." s n
  end.

(** The session's callbacks, as the component sees them. *)
Definition deliver
  (callback : GeminiLive.Service -> GeminiLive.Native ->
              GeminiLive.Service * GeminiLive.Native * list ConnectionState)
  (v : State) : State :=
  let '(s, n, changes) := callback (service v) (native v) in
  mkState (report changes (status v)) (transcript v) s n.

Definition sessionOpened : State -> State := deliver GeminiLive.onopen.
Definition sessionClosed : State -> State := deliver GeminiLive.onclose.
Definition sessionError : State -> State := deliver GeminiLive.onerror.

(** The unmount cleanup. *)
Definition unmount (v : State) : State :=
  let '(s, n) := GeminiLive.disconnect (service v) (native v) in
  mkState (status v) (transcript v) s n.

(** Nothing is held outside the program on behalf of the assistant. *)
Definition released (n : GeminiLive.Native) : Prop :=
  GeminiLive.liveStreams n = ∅ /\
  GeminiLive.openSessions n = ∅ /\
  GeminiLive.startedSources n = ∅.

End VoiceRemote.

(* ===================================================================== *)
(** ** A codec to run the model with                                      *)
(* ===================================================================== *)

(** The services are parametric in the codec.  To evaluate them on concrete
    stores a codec is needed that computes: this one writes a channel list
    as an S-expression and reads it back.  Text that is well formed but is
    not a channel list reads as a value that is not an array; malformed
    text is a syntax error. *)
Module Reference.

(** Strings are written as the list of their byte codes, so that every
    string reads back, whatever bytes it holds. *)
Definition codes (s : string) : list Z :=
  map (fun a => Z.of_N (N_of_ascii a)) (list_ascii_of_string s).

Definition of_codes (zs : list Z) : string :=
  string_of_list_ascii (map (fun z => ascii_of_N (Z.to_N z)) zs).

#[local] Instance Serialize_bytes : Serialize string | 0 :=
  fun s => to_sexp (codes s).

#[local] Instance Deserialize_bytes : Deserialize string | 0 :=
  fun l e =>
    match (_from_sexp l e : error + list Z) with
    | inr zs => inr (of_codes zs)
    | inl err => inl err
    end.

#[local] Instance Serialize_Q : Serialize Q :=
  fun q => [Atom "Q"; to_sexp (Qnum q); to_sexp (Zpos (Qden q))]%sexp.

#[local] Instance Deserialize_Q : Deserialize Q :=
  Deser.match_con "Q" []
    [("Q", Deser.con2_ (fun n d : Z => Qmake n (Z.to_pos d)))].

#[local] Instance Serialize_Channel : Serialize Channel :=
  fun c => [Atom "channel"; to_sexp (id c); to_sexp (name c);
            to_sexp (category c); to_sexp (description c);
            to_sexp (videoUrl c); to_sexp (thumbnail c);
            to_sexp (currentProgram c); to_sexp (rating c);
            to_sexp (isFavorite c)]%sexp.

#[local] Instance Deserialize_Channel : Deserialize Channel :=
  Deser.match_con "channel" []
    [("channel", @Deser.con_ _ Channel 9 _ mkChannel)].

Definition stringify (cs : list Channel) : string := to_string cs.

Definition parse (text : string) : option JsonValue :=
  match (from_string text : error + list Channel) with
  | inr cs => Some (JArray cs)
  | inl (ParseError _) => None
  | inl (DeserError _ _) => Some JOther
  end.

Definition codec : JsonCodec := mkCodec stringify parse.

(** A store that accepts everything the examples write, one that is full,
    and one that may not be accessed. *)
Definition roomy (m : gmap string string) : LocalStorage :=
  mkStorage m 5000000 false.
Definition full (m : gmap string string) : LocalStorage :=
  mkStorage m 0 false.
Definition blocked : LocalStorage := mkStorage ∅ 5000000 true.

Definition offline : string -> FetchOutcome := fun _ => FetchRejected.
Definition serving (body : string) : string -> FetchOutcome :=
  fun _ => FetchResponse true body.

(** Browsers: one that lets everything play through hls.js, one that
    refuses every autoplay, one that supports no adaptive streaming. *)
Definition permissive : VideoPlayer.Browser :=
  VideoPlayer.mkBrowser true false (fun _ => VideoPlayer.PlayResolved).
Definition strict : VideoPlayer.Browser :=
  VideoPlayer.mkBrowser true false (fun _ => VideoPlayer.PlayRejected).
Definition no_adaptive : VideoPlayer.Browser :=
  VideoPlayer.mkBrowser false false (fun _ => VideoPlayer.PlayResolved).

(** A connection attempt in which everything is granted. *)
Definition granted : GeminiLive.Attempt := GeminiLive.mkAttempt true true.

(** A channel with a progressive source, as the admin panel offers. *)
Definition bunny : Channel :=
  mkChannel "bunny" "Big Buck Bunny" "Cinéma" ""
    "https://storage.googleapis.com/gtv-videos-bucket/sample/BigBuckBunny.mp4"
    "" "" (Some 3.5%Q) None.

End Reference.

(* ===================================================================== *)
(** ** StorageService                                                     *)
(* ===================================================================== *)

(** The earlier storage service, with a key of its own. *)
Module StorageService.

Definition STORAGE_KEY : string := "gemini_tv_channels_v1".

Section WithCodec.
Variable J : JsonCodec.

(** [getChannels] returns whatever the stored text parses to, array or
    not; anything thrown on the way is caught and the built-in list
    returned. *)
Definition getChannels : M JsonValue :=
  let* found :=
    try_catch
      (let* stored := getItem STORAGE_KEY in
       match stored with
       | Some text =>
           if JsString.truthy text then
             let* parsed := parse J text in ret (Some parsed)
           else ret None
       | None => ret None
       end)
      (fun _ => ret None) in
  match found with
  | Some parsed => ret parsed
  | None => ret (JArray DEFAULT_CHANNELS)
  end.

Definition saveChannels (channels : list Channel) : M unit :=
  try_catch
    (setItem STORAGE_KEY (JSON_stringify J channels))
    (fun _ => ret tt).

End WithCodec.

(** [reset] has no [try]: if storage may not be accessed it throws. *)
Definition reset : M (list Channel) :=
  removeItem STORAGE_KEY ;;; ret DEFAULT_CHANNELS.

End StorageService.

(* ===================================================================== *)
(** ** components/AdminPanel.tsx                                          *)
(* ===================================================================== *)

Module AdminPanel.

(** [{ ...c, id: v }] and [{ ...c, name: v }]. *)
Definition with_id (c : Channel) (v : string) : Channel :=
  mkChannel v (name c) (category c) (description c) (videoUrl c)
            (thumbnail c) (currentProgram c) (rating c) (isFavorite c).

Definition with_name (c : Channel) (v : string) : Channel :=
  mkChannel (id c) v (category c) (description c) (videoUrl c)
            (thumbnail c) (currentProgram c) (rating c) (isFavorite c).

Definition EmptyChannel : Channel :=
  mkChannel "" "" "Général" "" "" "" "" (Some 3.5%Q) None.

Record State : Type := mkState {
  localChannels : list Channel;
  editingId : option string;      (* [None] is [null] *)
  editForm : Channel;
  isSaving : bool;
  adminSearch : string
}.

(** The panel opens on a draft of the collection it is given. *)
Definition initial (channels : list Channel) : State :=
  mkState channels None EmptyChannel false "".

Definition setLocalChannels (cs : list Channel) (st : State) : State :=
  mkState cs (editingId st) (editForm st) (isSaving st) (adminSearch st).

Definition setEditingId (e : option string) (st : State) : State :=
  mkState (localChannels st) e (editForm st) (isSaving st) (adminSearch st).

Definition setEditForm (c : Channel) (st : State) : State :=
  mkState (localChannels st) (editingId st) c (isSaving st) (adminSearch st).


(** The decimal writing of a natural number. *)
Definition decimal (n : N) : string := NilZero.string_of_uint (N.to_uint n).

(** [s.slice(-k)]: the last [k] characters, or all of [s] if it is
    shorter. *)
Definition slice_last (k : nat) (s : string) : string :=
  String.substring (String.length s - k) k s.

(** [handleDelete]; [confirmed] is the answer to the [confirm] dialog. *)
Definition handleDelete (confirmed : bool) (i : string) (st : State) : State :=
  if confirmed then
    let st1 :=
      setLocalChannels
        (List.filter (fun c => negb (String.eqb (id c) i)) (localChannels st))
        st in
    match editingId st with
    | Some e => if String.eqb e i then setEditingId None st1 else st1
    | None => st1
    end
  else st.

(** [handleDuplicate]; [draw] is [Math.floor(Math.random() * 1000)]. *)
Definition handleDuplicate (draw : N) (channel : Channel) (st : State) : State :=
  let newId := id channel +:+ "_copy_" +:+ decimal draw in
  let newChannel := with_name (with_id channel newId)
                              (name channel +:+ " (Copie)") in
  setEditForm newChannel
    (setEditingId (Some newId)
       (setLocalChannels (localChannels st ++ [newChannel]) st)).

Definition startEdit (channel : Channel) (st : State) : State :=
  setEditForm channel (setEditingId (Some (id channel)) st).

(** [startCreate]; [now] is [Date.now()]. *)
Definition startCreate (now : N) (st : State) : State :=
  let newId := "ch_" +:+ slice_last 6 (decimal now) in
  let newChannel := with_name (with_id EmptyChannel newId) "Nouvelle Chaîne" in
  setEditForm newChannel (setEditingId (Some "NEW") st).

(** [saveEdit].  With no channel being edited ([editingId] is [null]) no
    id equals it and the list is mapped to itself. *)
Definition saveEdit (st : State) : State :=
  if negb (JsString.truthy (name (editForm st)))
     || negb (JsString.truthy (id (editForm st)))
  then st
  else
    let st1 :=
      match editingId st with
      | Some e =>
          if String.eqb e "NEW" then
            setLocalChannels (localChannels st ++ [editForm st]) st
          else
            setLocalChannels
              (map (fun c => if String.eqb (id c) e then editForm st else c)
                   (localChannels st))
              st
      | None => setLocalChannels (map (fun c => c) (localChannels st)) st
      end in
    setEditingId None st1.


(** [handleGlobalSave], with the props the shell passes: [onSave] is
    [handleSaveChannels], [onClose] closes the panel. *)
Definition handleGlobalSave (J : JsonCodec) (st : State) (app : App.State)
  : M App.State :=
  let* app' := App.handleSaveChannels J (localChannels st) app in
  ret (App.setIsAdminOpen false app').

(** The logout button: [AuthService.logout(); onClose()]. *)
Definition handleLogout (app : App.State) : M App.State :=
  AuthService.logout ;;; ret (App.setIsAdminOpen false app).

End AdminPanel.

(* ===================================================================== *)
(** ** components/ChannelList.tsx                                         *)
(* ===================================================================== *)

Module ChannelList.

(** [s.trim()], on the ASCII white space (tab, line feed, vertical tab,
    form feed, carriage return, space). *)
Definition is_space (a : ascii) : bool :=
  let n := N_of_ascii a in
  ((9 <=? n) && (n <=? 13) || (n =? 32))%N.

Fixpoint trimStart (s : string) : string :=
  match s with
  | EmptyString => EmptyString
  | String a rest => if is_space a then trimStart rest else s
  end.

Fixpoint trimEnd (s : string) : string :=
  match s with
  | EmptyString => EmptyString
  | String a rest =>
      match trimEnd rest with
      | EmptyString => if is_space a then EmptyString else String a EmptyString
      | kept => String a kept
      end
  end.

Definition trim (s : string) : string := trimEnd (trimStart s).

(** [Array.from(new Set(l))]: the elements of [l], each once, in the order
    of their first occurrence. *)
Fixpoint set_from (l : list string) : list string :=
  match l with
  | [] => []
  | x :: rest =>
      x :: List.filter (fun y => negb (String.eqb y x)) (set_from rest)
  end.

(** The default order of [sort()] on strings: lexicographic on the code
    units; here, on the bytes. *)
Definition precedes (a b : string) : Prop := String.leb a b = true.

#[global] Instance precedes_dec (a b : string) : Decision (precedes a b).
Proof. unfold precedes. apply _. Defined.

Definition sort (l : list string) : list string := merge_sort precedes l.

Definition categories (channels : list Channel) : list string :=
  "Tous" :: sort (set_from (map category channels)).

Record State : Type := mkState {
  searchQuery : string;
  activeCategory : string
}.

Definition initial : State := mkState "" "Tous".

(** The property names every object inherits from [Object.prototype]. *)
Definition inherited_names : list string :=
  [ "constructor"; "toString"; "toLocaleString"; "valueOf"; "hasOwnProperty";
    "isPrototypeOf"; "propertyIsEnumerable"; "__proto__";
    "__defineGetter__"; "__defineSetter__"; "__lookupGetter__";
    "__lookupSetter__" ].

Definition inherited (key : string) : bool :=
  existsb (String.eqb key) inherited_names.

Section WithSearch.
(** [new Fuse(list, options).search(query).map(r => r.item)] *)
Variable fuse_search : list Channel -> string -> list Channel.

Definition filteredChannels (st : State) (channels : list Channel)
  : list Channel :=
  let result :=
    if String.eqb (activeCategory st) "Tous" then channels
    else List.filter (fun c => String.eqb (category c) (activeCategory st))
                     channels in
  if JsString.truthy (trim (searchQuery st))
  then fuse_search result (searchQuery st)
  else result.

(** [{ favorites, others }] *)
Definition favorites_others (st : State) (channels : list Channel)
  : list Channel * list Channel :=
  let filtered := filteredChannels st channels in
  if JsString.truthy (trim (searchQuery st)) then ([], filtered)
  else (List.filter (fun c => truthy_flag (isFavorite c)) filtered,
        List.filter (fun c => negb (truthy_flag (isFavorite c))) filtered).

(** One turn of the [forEach] that fills [groups].  [groups[category]] is
    truthy when the object has the key, and also when the key is inherited;
    in that case nothing is initialised and [push] is not a function. *)
Definition group_step (groups : Result (gmap string (list Channel)))
  (channel : Channel) : Result (gmap string (list Channel)) :=
  match groups with
  | Throw e => Throw e
  | Return g =>
      match g !! category channel with
      | Some l => Return (<[category channel := l ++ [channel]]> g)
      | None =>
          if inherited (category channel) then Throw TypeError
          else Return (<[category channel := [channel]]> g)
      end
  end.

(** [groupedChannels]: [None] is [null]. *)
Definition groupedChannels (st : State) (channels : list Channel)
  : Result (option (gmap string (list Channel))) :=
  if negb (String.eqb (activeCategory st) "Tous")
     || JsString.truthy (trim (searchQuery st))
  then Return None
  else
    match fold_left group_step (snd (favorites_others st channels))
                    (Return ∅) with
    | Return g => Return (Some g)
    | Throw e => Throw e
    end.

End WithSearch.

(** [handleSelect], with the props the shell passes. *)
Definition handleSelect (innerWidth : Z) (i : string) (app : App.State)
  : App.State :=
  let app' := App.handleChannelChange innerWidth i app in
  if (innerWidth <? 1024)%Z then App.setIsMenuOpen false app' else app'.

End ChannelList.

(* ===================================================================== *)
(** ** components/VideoPlayer.tsx: the controls                           *)
(* ===================================================================== *)

Module PlayerControls.

Inductive TapAction := forward | rewind.

(** The player state, the state of the controls, [lastTapRef], the pending
    hide timer (with the [isPlaying] it captured) and the changes of
    [video.currentTime] asked for, in seconds. *)
Record State : Type := mkState {
  player : VideoPlayer.State;
  showControls : bool;
  showSettings : bool;
  doubleTapAction : option TapAction;
  lastTap : Z;
  hideTimer : option bool;
  seeks : list Z
}.

Definition initial : State :=
  mkState VideoPlayer.initial true false None 0 None [].

Definition on_player (f : VideoPlayer.State -> VideoPlayer.State) (st : State)
  : State :=
  mkState (f (player st)) (showControls st) (showSettings st)
          (doubleTapAction st) (lastTap st) (hideTimer st) (seeks st).

Definition setShowControls (b : bool) (st : State) : State :=
  mkState (player st) b (showSettings st) (doubleTapAction st) (lastTap st)
          (hideTimer st) (seeks st).

(** [handleUserActivity]: the controls are shown and the timer restarted. *)
Definition handleUserActivity (st : State) : State :=
  mkState (player st) true (showSettings st) (doubleTapAction st) (lastTap st)
          (Some (VideoPlayer.isPlaying (player st))) (seeks st).

(** The timer fires, 3.5 seconds after the last activity. *)
Definition timerFired (st : State) : State :=
  match hideTimer st with
  | Some true =>
      mkState (player st) false false (doubleTapAction st) (lastTap st)
              None (seeks st)
  | _ =>
      mkState (player st) (showControls st) (showSettings st)
              (doubleTapAction st) (lastTap st) None (seeks st)
  end.

Definition togglePlay (b : VideoPlayer.Browser) (p : VideoPlayer.State)
  : VideoPlayer.State :=
  if VideoPlayer.isPlaying p then VideoPlayer.call VideoPlayer.VideoPause p
  else
    let p := snd (VideoPlayer.play b p) in
    if VideoPlayer.isMuted p && VideoPlayer.videoMuted p then
      VideoPlayer.setVolume 1
        (VideoPlayer.set_videoVolume 1
           (VideoPlayer.setIsMuted false (VideoPlayer.set_videoMuted false p)))
    else p.

Definition toggleMute (p : VideoPlayer.State) : VideoPlayer.State :=
  let p := VideoPlayer.set_videoMuted (negb (VideoPlayer.videoMuted p)) p in
  let p := VideoPlayer.setIsMuted (VideoPlayer.videoMuted p) p in
  if negb (VideoPlayer.videoMuted p)
  then VideoPlayer.setVolume 1 (VideoPlayer.set_videoVolume 1 p)
  else p.

(** The volume slider. *)
Definition onVolumeChange (newVol : Q) (p : VideoPlayer.State)
  : VideoPlayer.State :=
  let p := VideoPlayer.set_videoVolume newVol (VideoPlayer.setVolume newVol p) in
  if negb (Qle_bool newVol 0) && VideoPlayer.videoMuted p
  then VideoPlayer.setIsMuted false (VideoPlayer.set_videoMuted false p)
  else p.

Definition handleFirstInteraction (p : VideoPlayer.State) : VideoPlayer.State :=
  VideoPlayer.setIsMuted false
    (VideoPlayer.setVolume 1
       (VideoPlayer.set_videoMuted false (VideoPlayer.set_videoVolume 1 p))).

(** [handleContainerClick]: [now] is [Date.now()], [x] the abscissa of the
    click inside the player and [width] the player's width. *)
Definition handleContainerClick (b : VideoPlayer.Browser)
  (now : Z) (x width : Q) (st : State) : State :=
  let st1 :=
    if (now - lastTap st <? 300)%Z then
      if negb (Qle_bool x (width / 2)) then
        mkState (player st) (showControls st) (showSettings st) (Some forward)
                (lastTap st) (hideTimer st) (seeks st ++ [10%Z])
      else
        mkState (player st) (showControls st) (showSettings st) (Some rewind)
                (lastTap st) (hideTimer st) (seeks st ++ [(-10)%Z])
    else if negb (VideoPlayer.isPlaying (player st))
         then on_player (togglePlay b) st
         else setShowControls (negb (showControls st)) st in
  handleUserActivity
    (mkState (player st1) (showControls st1) (showSettings st1)
             (doubleTapAction st1) now (hideTimer st1) (seeks st1)).

(** Everything that can happen to the player. *)
Inductive Event :=
| Load (videoUrl : string)
| ManifestParsed
| LoadedMetadata
| HlsError (data : VideoPlayer.ErrorData)
| Cleanup
| Played | Paused | Waiting | Playing
| TogglePlay
| ToggleMute
| VolumeChange (newVol : Q)
| FirstInteraction
| Click (now : Z) (x width : Q)
| MouseMove
| TimerFired.

Definition step (b : VideoPlayer.Browser) (st : State) (e : Event) : State :=
  match e with
  | Load videoUrl => on_player (VideoPlayer.loadChannel b videoUrl) st
  | ManifestParsed => on_player (VideoPlayer.onManifestParsed b) st
  | LoadedMetadata => on_player (VideoPlayer.onLoadedMetadata b) st
  | HlsError data => on_player (VideoPlayer.onHlsError data) st
  | Cleanup => on_player VideoPlayer.cleanup st
  | Played => on_player VideoPlayer.handlePlay st
  | Paused => on_player VideoPlayer.handlePause st
  | Waiting => on_player VideoPlayer.handleWaiting st
  | Playing => on_player VideoPlayer.handlePlaying st
  | TogglePlay => on_player (togglePlay b) st
  | ToggleMute => on_player toggleMute st
  | VolumeChange newVol => on_player (onVolumeChange newVol) st
  | FirstInteraction => on_player handleFirstInteraction st
  | Click now x width => handleContainerClick b now x width st
  | MouseMove => handleUserActivity st
  | TimerFired => timerFired st
  end.

End PlayerControls.

(* ===================================================================== *)
(** ** services/geminiLive.ts: incoming messages                          *)
(* ===================================================================== *)

Module LiveMessages.

Record FunctionCall : Type := mkCall {
  call_id : string;
  call_name : string;
  channelId : string        (* [args.channelId] *)
}.

(** What the handler reads of a server message: the transcription of the
    user's speech, the tool calls, whether audio data is there (and then
    whether it decodes), and the interruption flag. *)
Record Message : Type := mkMessage {
  inputTranscription : option string;
  toolCall : option (list FunctionCall);
  audio : option bool;
  interrupted : bool
}.

(** Calls made on the options object, and responses sent to the session. *)
Inductive Callback :=
| OnTranscript (text : string) (isModel : bool)
| OnChangeChannel (i : string).

Record ToolResponse : Type := mkResponse {
  response_id : string;
  response_name : string;
  response_result : string
}.

(** The loop over the function calls of a message. *)
Fixpoint tool_calls (calls : list FunctionCall)
  : list Callback * list ToolResponse :=
  match calls with
  | [] => ([], [])
  | fc :: rest =>
      let (callbacks, responses) := tool_calls rest in
      if String.eqb (call_name fc) "changeChannel" then
        (OnChangeChannel (channelId fc) :: callbacks,
         mkResponse (call_id fc) (call_name fc) "Channel changed successfully"
           :: responses)
      else (callbacks, responses)
  end.

Definition onmessage (m : Message) (s : GeminiLive.Service)
  (n : GeminiLive.Native)
  : GeminiLive.Service * GeminiLive.Native *
    list Callback * list ToolResponse :=
  let transcripts :=
    match inputTranscription m with
    | Some text =>
        if JsString.truthy text then [OnTranscript text false] else []
    | None => []
    end in
  let (callbacks, responses) :=
    match toolCall m with
    | Some calls => tool_calls calls
    | None => ([], [])
    end in
  let (s1, n1) :=
    match audio m with
    | Some decodes => GeminiLive.onAudio decodes s n
    | None => (s, n)
    end in
  let (s2, n2) :=
    if interrupted m then GeminiLive.stopAudioOutput s1 n1 else (s1, n1) in
  (s2, n2, transcripts ++ callbacks, responses).

(** A scheduled source ends: it leaves the set. *)
Definition onEnded (h : nat) (s : GeminiLive.Service) (n : GeminiLive.Native)
  : GeminiLive.Service * GeminiLive.Native :=
  (GeminiLive.mkService (GeminiLive.ai s) (GeminiLive.inputAudioContext s)
     (GeminiLive.outputAudioContext s) (GeminiLive.nextStartTime s)
     (GeminiLive.sources s ∖ {[h]}) (GeminiLive.session s)
     (GeminiLive.stream s) (GeminiLive.processor s) (GeminiLive.inputSource s),
   GeminiLive.mkNative (GeminiLive.liveStreams n) (GeminiLive.openSessions n)
     (GeminiLive.openContexts n) (GeminiLive.connectedNodes n)
     (GeminiLive.startedSources n ∖ {[h]}) (GeminiLive.nextHandle n)).

End LiveMessages.

(* ===================================================================== *)
(** ** Vocabulary of the statements                                       *)
(* ===================================================================== *)

(** [c] is the first element of [l] on which [p] holds: what
    [Array.prototype.find] looks for. *)
Definition first_match {A} (p : A -> bool) (l : list A) (c : A) : Prop :=
  exists before after,
    l = before ++ c :: after /\ p c = true /\
    Forall (fun x => p x = false) before.


Definition name_contains (i : string) (c : Channel) : bool :=
  JsString.includes (JsString.toLowerCase (name c)) (JsString.toLowerCase i).

Definition id_contains (i : string) (c : Channel) : bool :=
  JsString.includes (id c) i.


(** The active id refers to a channel of the collection, or the collection
    is empty. *)
Definition active_exists (st : App.State) : Prop :=
  App.channels st <> [] ->
  exists c, In c (App.channels st) /\ id c = App.currentChannelId st.

(** What can happen to the application shell: the mount effect, a channel
    request (from the guide or from the voice assistant), a publish from
    the admin panel, a favourite toggle, a rating. *)
Inductive AppEvent :=
| Mount
| ChannelRequest (innerWidth : Z) (i : string)
| Publish (updated : list Channel)
| ToggleFavorite (channelId : string)
| Rate (r : Q).

(** A handler that is not awaited: if it throws, the state it was given
    stays. *)
Definition settle {A} (m : M A) (otherwise : A) (w : World) : A * World :=
  match m w with
  | (Return a, w') => (a, w')
  | (Throw _, w') => (otherwise, w')
  end.

Definition app_step (J : JsonCodec) (sw : App.State * World) (e : AppEvent)
  : App.State * World :=
  let (st, w) := sw in
  match e with
  | Mount => settle (App.initApp J st) st w
  | ChannelRequest innerWidth i => (App.handleChannelChange innerWidth i st, w)
  | Publish updated => settle (App.handleSaveChannels J updated st) st w
  | ToggleFavorite channelId =>
      settle (App.handleToggleFavorite J channelId st) st w
  | Rate r => settle (App.handleRateChannel J r st) st w
  end.

(** Every resource of the given kind that is live is the one the field
    refers to. *)
Definition held_by (field : option nat) (live : gset nat) : Prop :=
  forall h, h ∈ live -> field = Some h.

(** The service object still refers to everything that is held on its
    behalf: nothing has leaked. *)
Definition tracked (s : GeminiLive.Service) (n : GeminiLive.Native) : Prop :=
  held_by (GeminiLive.stream s) (GeminiLive.liveStreams n) /\
  held_by (GeminiLive.session s) (GeminiLive.openSessions n) /\
  GeminiLive.startedSources n ⊆ GeminiLive.sources s.

(** A computation touches local storage under [key] only: it leaves every
    other key, the quota, the access flag and the network as they are,
    whether it returns or throws. *)
Definition writes_only {A} (key : string) (m : M A) : Prop :=
  forall w,
    let w' := snd (m w) in
    network w' = network w /\
    denied (localStorage w') = denied (localStorage w) /\
    quota (localStorage w') = quota (localStorage w) /\
    forall k, k <> key ->
      items (localStorage w') !! k = items (localStorage w) !! k.

(** The way into the admin panel: the settings button, a password
    submitted in the login modal, the modal or the panel closed, the
    panel's logout and publish buttons, and anything else that happens to
    the shell. *)
Inductive GateEvent :=
| OpenAdmin
| SubmitPassword (password : string)
| CloseLogin
| CloseAdmin
| AdminLogout
| AdminPublish (draft : list Channel)
| Shell (e : AppEvent).

Definition gate_step (J : JsonCodec) (sw : App.State * World) (e : GateEvent)
  : App.State * World :=
  let (app, w) := sw in
  match e with
  | OpenAdmin => settle (App.handleOpenAdmin app) app w
  | SubmitPassword password =>
      if App.isLoginOpen app then
        match LoginModal.handleSubmit
                (LoginModal.onChange password LoginModal.initial) w with
        | (_, LoginModal.LoggedIn, w') => (App.handleLoginSuccess app, w')
        | (_, _, w') => (app, w')
        end
      else (app, w)
  | CloseLogin => (App.setIsLoginOpen false app, w)
  | CloseAdmin => (App.setIsAdminOpen false app, w)
  | AdminLogout =>
      if App.isAdminOpen app
      then settle (AdminPanel.handleLogout app) app w
      else (app, w)
  | AdminPublish draft =>
      if App.isAdminOpen app
      then settle (AdminPanel.handleGlobalSave J (AdminPanel.initial draft) app)
                  app w
      else (app, w)
  | Shell e => app_step J (app, w) e
  end.

(** The persisted flag says the user is authenticated. *)
Definition authenticated (w : World) : Prop :=
  denied (localStorage w) = false /\
  items (localStorage w) !! AuthService.AUTH_KEY = Some "true".

(** If the admin panel is open, the user is authenticated. *)
Definition gate_ok (sw : App.State * World) : Prop :=
  App.isAdminOpen (fst sw) = true -> authenticated (snd sw).

(** What the interface shows of the sound is what the video element has:
    the mute flag and the volume. *)
Definition mirrors (p : VideoPlayer.State) : Prop :=
  VideoPlayer.isMuted p = VideoPlayer.videoMuted p /\
  VideoPlayer.volume p = VideoPlayer.videoVolume p.

Module Sources.

(** Local storage may be accessed. *)
Definition readable (w : World) : Prop := denied (localStorage w) = false.

(** Local storage takes [value] under [key]. *)
Definition accepts (w : World) (key value : string) : Prop :=
  denied (localStorage w) = false /\
  (storage_size (<[key := value]> (items (localStorage w)))
   <= quota (localStorage w))%N.

Section WithCodec.
Variable J : JsonCodec.

(** The text reads as a collection that is not empty. *)
Definition collection_of (text : string) : option (list Channel) :=
  match JSON_parse J text with
  | Some v => nonempty_array v
  | None => None
  end.

(** The world once [text] is stored under the channels key. *)
Definition with_stored (w : World) (text : string) : World :=
  set_localStorage w
    (set_items (localStorage w)
       (<[DBService.STORAGE_KEY := text]> (items (localStorage w)))).

(** The codec reads back what it writes for [cs]. *)
Definition reads_back (cs : list Channel) : Prop :=
  JSON_parse J (JSON_stringify J cs) = Some (JArray cs) /\
  JSON_stringify J cs <> "".

(** The three sources of the channel list, in the words of the
    specification: the local-storage collection, the remote JSON file,
    the built-in list.  The first two may fail. *)
Definition local_source (w : World) : option (list Channel) :=
  if denied (localStorage w) then None
  else match items (localStorage w) !! DBService.STORAGE_KEY with
       | Some text =>
           if JsString.truthy text then collection_of text else None
       | None => None
       end.

Definition remote_source (w : World) : option (list Channel) :=
  match network w DBService.JSON_SOURCE with
  | FetchResponse true body => collection_of body
  | _ => None
  end.

(** The first source that succeeds, in priority order. *)
Definition first_success (w : World) : list Channel :=
  match local_source w with
  | Some cs => cs
  | None => match remote_source w with
            | Some cs => cs
            | None => DEFAULT_CHANNELS
            end
  end.

End WithCodec.

End Sources.

(* ===================================================================== *)
(** * Theorems                                                            *)
(* ===================================================================== *)

(** ** The reference codec reads back what it writes *)

Example reference_codec_roundtrip :
  JSON_parse Reference.codec (JSON_stringify Reference.codec DEFAULT_CHANNELS)
  = Some (JArray DEFAULT_CHANNELS).
Proof. vm_compute. reflexivity. Qed.

Example reference_codec_empty :
  JSON_parse Reference.codec (JSON_stringify Reference.codec []) = Some (JArray []).
Proof. vm_compute. reflexivity. Qed.

Example reference_codec_garbage :
  JSON_parse Reference.codec "((" = None /\
  JSON_parse Reference.codec "42" = Some JOther.
Proof. vm_compute. split; reflexivity. Qed.

(** ** Strings *)

(** [String.append] is never unfolded by [simpl]; this does it. *)
Ltac simpl_append :=
  repeat first
    [ progress change (String.append EmptyString ?t) with t in *
    | progress change (String.append (String ?a ?s) ?t)
        with (String a (String.append s t)) in * ].

Section StringFacts.

Lemma prefix_split (p s : string) :
  String.prefix p s = true <-> exists q, s = p +:+ q.
Proof.
  revert s; induction p as [|a p IH]; intros s.
  - split; [intros _; exists s; reflexivity | intros _; now destruct s].
  - destruct s as [|b s]; simpl; simpl_append.
    + split; [discriminate | intros [q Hq]; discriminate].
    + destruct (Ascii.ascii_dec a b) as [->|Hab].
      * rewrite IH. split; intros [q Hq]; exists q; simpl_append.
        -- now rewrite Hq.
        -- now injection Hq.
      * split; [discriminate|].
        intros [q Hq]. simpl_append. injection Hq as Hba _. congruence.
Qed.

Lemma includes_nil (needle : string) :
  JsString.includes "" needle = String.prefix needle "".
Proof. unfold JsString.includes. now destruct (String.prefix needle ""). Qed.

Lemma includes_cons (a : ascii) (hay needle : string) :
  JsString.includes (String a hay) needle =
  if String.prefix needle (String a hay) then true
  else JsString.includes hay needle.
Proof. reflexivity. Qed.

Lemma includes_split (hay needle : string) :
  JsString.includes hay needle = true <->
  exists p q, hay = p +:+ needle +:+ q.
Proof.
  induction hay as [|a hay IH].
  - rewrite includes_nil, prefix_split. split.
    + intros [q Hq]. exists "", q. exact Hq.
    + intros ([|b p] & q & H); simpl_append; [eauto | discriminate].
  - rewrite includes_cons.
    destruct (String.prefix needle (String a hay)) eqn:Hp.
    + apply prefix_split in Hp as [q Hq].
      split; [intros _; exists "", q; exact Hq | reflexivity].
    + rewrite IH. split.
      * intros (p & q & ->). exists (String a p), q. reflexivity.
      * intros ([|b p] & q & H); simpl_append.
        -- assert (String.prefix needle (String a hay) = true) as Hp'
               by (apply prefix_split; eauto).
           congruence.
        -- injection H as _ ->. eauto.
Qed.






Lemma truthy_nonempty (s : string) : JsString.truthy s = true <-> s <> "".
Proof. destruct s; simpl; split; congruence. Qed.

End StringFacts.

(** ** Array.prototype.find *)

Section Find.
Context {A : Type}.


Lemma find_no_match (p : A -> bool) (l : list A) :
  find p l = None <-> Forall (fun x => p x = false) l.
Proof.
  induction l as [|x l IH]; simpl.
  - split; auto.
  - destruct (p x) eqn:Hx.
    + split; [discriminate | intros H; inversion H; congruence].
    + rewrite IH. split; [auto | intros H; now inversion H].
Qed.

Lemma first_match_In (p : A -> bool) (l : list A) (c : A) :
  first_match p l c -> In c l /\ p c = true.
Proof.
  intros (b & a & -> & Hc & _). split; [|exact Hc].
  apply in_or_app. right. now left.
Qed.

End Find.

(** ** The platform *)

Section PlatformFacts.

Lemma setItem_accepted (w : World) (key value : string) :
  Sources.accepts w key value ->
  setItem key value w =
  (Return tt,
   set_localStorage w
     (set_items (localStorage w) (<[key := value]> (items (localStorage w))))).
Proof.
  intros [Hd Hq]. unfold setItem. rewrite Hd.
  apply N.leb_le in Hq. now rewrite Hq.
Qed.

Lemma setItem_cases (w : World) (key value : string) :
  (exists e, setItem key value w = (Throw e, w)) \/
  (Sources.accepts w key value /\
   setItem key value w =
   (Return tt,
    set_localStorage w
      (set_items (localStorage w) (<[key := value]> (items (localStorage w)))))).
Proof.
  unfold setItem, Sources.accepts.
  destruct (denied (localStorage w)) eqn:Hd; [left; eauto|].
  destruct (_ <=? _)%N eqn:Hq; [|left; eauto].
  right. split; [|reflexivity]. split; [reflexivity | now apply N.leb_le].
Qed.

Lemma getItem_after_setItem (w w' : World) (key value : string) :
  setItem key value w = (Return tt, w') ->
  getItem key w' = (Return (Some value), w').
Proof.
  unfold setItem, getItem.
  destruct (denied (localStorage w)) eqn:Hd; [discriminate|].
  destruct (_ <=? _)%N; [|discriminate].
  intros [= <-]. simpl. rewrite Hd. now rewrite lookup_insert_eq.
Qed.

Lemma setItem_keeps_network (w w' : World) (key value : string) (r : Result unit) :
  setItem key value w = (r, w') -> network w' = network w.
Proof.
  unfold setItem.
  destruct (denied (localStorage w)); [now intros [= _ <-]|].
  destruct (_ <=? _)%N; now intros [= _ <-].
Qed.

End PlatformFacts.

(** ** DBService *)

Section DBServiceFacts.
Variable J : JsonCodec.

Lemma from_storage_total (storedData : option string) (w : World) :
  DBService.from_storage J storedData w =
  (Return (match storedData with
           | Some text =>
               if JsString.truthy text then Sources.collection_of J text
               else None
           | None => None
           end), w).
Proof.
  unfold DBService.from_storage, Sources.collection_of.
  destruct storedData as [text|]; [|reflexivity].
  destruct (JsString.truthy text); [|reflexivity].
  unfold try_catch, bind, parse.
  now destruct (JSON_parse J text).
Qed.

(** The seed-file step never throws: it yields a list or nothing. *)
Lemma from_json_file_total (w : World) :
  exists r w', DBService.from_json_file J w = (Return r, w') /\
               network w' = network w /\
               denied (localStorage w') = denied (localStorage w).
Proof.
  unfold DBService.from_json_file, try_catch, bind, fetch, parse.
  destruct (network w DBService.JSON_SOURCE) as [|[|] body]; simpl; eauto.
  destruct (JSON_parse J body) as [v|]; simpl; eauto.
  destruct (nonempty_array v) as [cs|]; simpl; eauto.
  destruct (setItem_cases w DBService.STORAGE_KEY (JSON_stringify J cs))
    as [[e ->]|[_ ->]]; simpl; eauto.
Qed.

Lemma from_json_file_none (w : World) :
  Sources.remote_source J w = None ->
  DBService.from_json_file J w = (Return None, w).
Proof.
  unfold Sources.remote_source, Sources.collection_of.
  unfold DBService.from_json_file, try_catch, bind, fetch, parse.
  destruct (network w DBService.JSON_SOURCE) as [|[|] body]; simpl; auto.
  destruct (JSON_parse J body) as [v|]; simpl; auto.
  now intros ->.
Qed.

Lemma from_json_file_some (w : World) (l : list Channel) :
  Sources.remote_source J w = Some l ->
  Sources.accepts w DBService.STORAGE_KEY (JSON_stringify J l) ->
  exists w', DBService.from_json_file J w = (Return (Some l), w').
Proof.
  unfold Sources.remote_source, Sources.collection_of.
  unfold DBService.from_json_file, try_catch, bind, fetch, parse.
  destruct (network w DBService.JSON_SOURCE) as [|[|] body]; simpl;
    try discriminate.
  destruct (JSON_parse J body) as [v|]; simpl; try discriminate.
  intros -> Hacc. rewrite (setItem_accepted _ _ _ Hacc). simpl. eauto.
Qed.

(** [init] always returns a list: nothing it calls can make it throw. *)
Lemma init_never_throws (w : World) :
  exists cs w', DBService.init J w = (Return cs, w').
Proof.
  unfold DBService.init, try_catch at 1.
  unfold bind at 1. unfold getItem.
  destruct (denied (localStorage w)); simpl; eauto.
  unfold bind at 1. rewrite from_storage_total.
  match goal with |- context [match ?o with Some _ => _ | None => _ end] =>
    destruct o as [l|] end; simpl; eauto.
  unfold bind at 1.
  destruct (from_json_file_total w) as (r & w1 & -> & _ & _).
  destruct r as [l|]; simpl; eauto.
  unfold bind.
  destruct (setItem_cases w1 DBService.STORAGE_KEY
              (JSON_stringify J DEFAULT_CHANNELS)) as [[e ->]|[_ ->]];
    simpl; eauto.
Qed.

Lemma init_denied (w : World) :
  denied (localStorage w) = true ->
  DBService.init J w = (Return DEFAULT_CHANNELS, w).
Proof.
  intros Hd. unfold DBService.init, try_catch, bind, getItem.
  now rewrite Hd.
Qed.

Lemma init_local (w : World) (l : list Channel) :
  Sources.local_source J w = Some l ->
  DBService.init J w = (Return l, w).
Proof.
  unfold Sources.local_source.
  destruct (denied (localStorage w)) eqn:Hd; [discriminate|].
  intros Hl. unfold DBService.init, try_catch at 1.
  unfold bind at 1. unfold getItem. rewrite Hd.
  unfold bind at 1. rewrite from_storage_total.
  now rewrite Hl.
Qed.

Lemma init_skips_local (w : World) :
  Sources.readable w ->
  Sources.local_source J w = None ->
  DBService.init J w =
  match DBService.from_json_file J w with
  | (Return (Some channels), w1) => (Return channels, w1)
  | (Return None, w1) =>
      match setItem DBService.STORAGE_KEY
              (JSON_stringify J DEFAULT_CHANNELS) w1 with
      | (_, w2) => (Return DEFAULT_CHANNELS, w2)
      end
  | (Throw _, w1) => (Return DEFAULT_CHANNELS, w1)
  end.
Proof.
  unfold Sources.readable, Sources.local_source. intros Hd. rewrite Hd.
  intros Hl. unfold DBService.init, try_catch at 1.
  unfold bind at 1. unfold getItem. rewrite Hd.
  unfold bind at 1. rewrite from_storage_total, Hl.
  unfold bind at 1.
  destruct (DBService.from_json_file J w) as [[[l|]|e] w1]; try reflexivity.
  unfold bind.
  destruct (setItem _ _ w1) as [[[]|e] w2]; reflexivity.
Qed.

Lemma init_remote (w : World) (l : list Channel) :
  Sources.readable w ->
  Sources.local_source J w = None ->
  Sources.remote_source J w = Some l ->
  Sources.accepts w DBService.STORAGE_KEY (JSON_stringify J l) ->
  exists w', DBService.init J w = (Return l, w').
Proof.
  intros Hr Hl Hrem Hacc. rewrite (init_skips_local _ Hr Hl).
  destruct (from_json_file_some _ _ Hrem Hacc) as [w' ->]. eauto.
Qed.

Lemma init_defaults (w : World) :
  Sources.readable w ->
  Sources.local_source J w = None ->
  Sources.remote_source J w = None ->
  exists w', DBService.init J w = (Return DEFAULT_CHANNELS, w').
Proof.
  intros Hr Hl Hrem. rewrite (init_skips_local _ Hr Hl).
  rewrite (from_json_file_none _ Hrem).
  destruct (setItem _ _ w) as [r w2]. eauto.
Qed.

(** [saveAllChannels] never throws, and when the store takes the text the
    text is what the store then holds. *)
Lemma saveAllChannels_total (cs : list Channel) (w : World) :
  exists w', DBService.saveAllChannels J cs w = (Return tt, w').
Proof.
  unfold DBService.saveAllChannels, try_catch.
  destruct (setItem_cases w DBService.STORAGE_KEY (JSON_stringify J cs))
    as [[e ->]|[_ ->]]; eauto.
Qed.

Lemma saveAllChannels_stores (cs : list Channel) (w : World) :
  Sources.accepts w DBService.STORAGE_KEY (JSON_stringify J cs) ->
  exists w', DBService.saveAllChannels J cs w = (Return tt, w') /\
             denied (localStorage w') = false /\
             items (localStorage w') !! DBService.STORAGE_KEY
             = Some (JSON_stringify J cs).
Proof.
  intros Hacc. unfold DBService.saveAllChannels, try_catch.
  rewrite (setItem_accepted _ _ _ Hacc). eexists. split; [reflexivity|].
  simpl. split; [apply Hacc | apply lookup_insert_eq].
Qed.

End DBServiceFacts.

(** ** Claims about the channel store *)

(** C2 (as found in the code).  Saving a collection and loading again
    returns exactly that collection when the collection is not empty, the
    codec reads back what it wrote for it, and local storage takes the
    text.  ([init] skips a stored array that is empty, and a save the store
    refuses is dropped without notice.) *)
Theorem save_then_init_roundtrip
  (J : JsonCodec) (cs : list Channel) (w : World) :
  cs <> [] ->
  JSON_parse J (JSON_stringify J cs) = Some (JArray cs) ->
  JSON_stringify J cs <> "" ->
  Sources.accepts w DBService.STORAGE_KEY (JSON_stringify J cs) ->
  exists w1,
    DBService.saveAllChannels J cs w = (Return tt, w1) /\
    DBService.init J w1 = (Return cs, w1).
Proof.
  intros Hne Hrt Htext Hacc.
  destruct (saveAllChannels_stores J cs w Hacc) as (w1 & Hsave & Hd & Hget).
  exists w1. split; [exact Hsave|].
  apply init_local. unfold Sources.local_source, Sources.collection_of.
  rewrite Hd, Hget.
  apply truthy_nonempty in Htext. rewrite Htext, Hrt.
  destruct cs; [contradiction | reflexivity].
Qed.

Lemma save_then_init_roundtrip_witness :
  let w := mkWorld (Reference.roomy ∅) Reference.offline in
  [Reference.bunny] <> [] /\
  JSON_parse Reference.codec (JSON_stringify Reference.codec [Reference.bunny])
  = Some (JArray [Reference.bunny]) /\
  JSON_stringify Reference.codec [Reference.bunny] <> "" /\
  Sources.accepts w DBService.STORAGE_KEY
    (JSON_stringify Reference.codec [Reference.bunny]) /\
  exists w1,
    DBService.saveAllChannels Reference.codec [Reference.bunny] w
    = (Return tt, w1) /\
    DBService.init Reference.codec w1 = (Return [Reference.bunny], w1).
Proof.
  assert (H1 : [Reference.bunny] <> []) by discriminate.
  assert (H2 : JSON_parse Reference.codec
                 (JSON_stringify Reference.codec [Reference.bunny])
               = Some (JArray [Reference.bunny]))
    by (vm_compute; reflexivity).
  assert (H3 : JSON_stringify Reference.codec [Reference.bunny] <> "")
    by (vm_compute; discriminate).
  assert (H4 : Sources.accepts
                 (mkWorld (Reference.roomy ∅) Reference.offline)
                 DBService.STORAGE_KEY
                 (JSON_stringify Reference.codec [Reference.bunny]))
    by (split; [reflexivity | vm_compute; discriminate]).
  exact (conj H1 (conj H2 (conj H3 (conj H4
           (save_then_init_roundtrip Reference.codec [Reference.bunny] _
              H1 H2 H3 H4))))).
Defined.

(** C2 as stated fails on the empty collection: it is written and read back
    faithfully, but [init] does not return it (here, with no network, it
    returns the built-in list).  It also fails when the store refuses the
    write. *)
Lemma save_then_init_roundtrip_counterexample :
  let w := mkWorld (Reference.roomy ∅) Reference.offline in
  let w_full := mkWorld (Reference.full ∅) Reference.offline in
  (JSON_parse Reference.codec (JSON_stringify Reference.codec [])
   = Some (JArray []) /\
   fst (DBService.saveAllChannels Reference.codec [] w) = Return tt /\
   fst (DBService.init Reference.codec
          (snd (DBService.saveAllChannels Reference.codec [] w)))
   = Return DEFAULT_CHANNELS /\
   DEFAULT_CHANNELS <> []) /\
  (fst (DBService.saveAllChannels Reference.codec [Reference.bunny] w_full)
   = Return tt /\
   fst (DBService.init Reference.codec
          (snd (DBService.saveAllChannels Reference.codec [Reference.bunny]
                  w_full)))
   = Return DEFAULT_CHANNELS /\
   DEFAULT_CHANNELS <> [Reference.bunny]).
Proof.
  repeat split; try (vm_compute; reflexivity); discriminate.
Qed.

(** C4 (as found in the code).  [init] never throws: it always returns a
    list.  When local storage may not be accessed the list is the built-in
    one.  Otherwise the sources are taken in priority order: the stored
    collection if it reads as a non-empty array; else the fetched one if the
    response is ok and reads as a non-empty array, provided the store takes
    its copy; else, when both fail, the built-in list. *)
Theorem init_priority_order (J : JsonCodec) (w : World) :
  exists cs w',
    DBService.init J w = (Return cs, w') /\
    (denied (localStorage w) = true -> cs = DEFAULT_CHANNELS) /\
    (forall l, Sources.local_source J w = Some l -> cs = l) /\
    (forall l,
       Sources.readable w ->
       Sources.local_source J w = None ->
       Sources.remote_source J w = Some l ->
       Sources.accepts w DBService.STORAGE_KEY (JSON_stringify J l) ->
       cs = l) /\
    (Sources.readable w ->
     Sources.local_source J w = None ->
     Sources.remote_source J w = None ->
     cs = DEFAULT_CHANNELS).
Proof.
  destruct (init_never_throws J w) as (cs & w' & Hinit).
  exists cs, w'. split; [exact Hinit|]. repeat split.
  - intros Hd. rewrite (init_denied J w Hd) in Hinit. congruence.
  - intros l Hl. rewrite (init_local J w l Hl) in Hinit. congruence.
  - intros l Hr Hl Hrem Hacc.
    destruct (init_remote J w l Hr Hl Hrem Hacc) as [w1 H1]. congruence.
  - intros Hr Hl Hrem.
    destruct (init_defaults J w Hr Hl Hrem) as [w1 H1]. congruence.
Qed.

(** C4 as stated fails when local storage may not be accessed: the first
    source fails, the second would succeed, and [init] returns the third
    without trying the second. *)
Lemma init_priority_order_counterexample :
  let w := mkWorld Reference.blocked
             (Reference.serving (Reference.stringify [Reference.bunny])) in
  Sources.local_source Reference.codec w = None /\
  Sources.remote_source Reference.codec w = Some [Reference.bunny] /\
  Sources.first_success Reference.codec w = [Reference.bunny] /\
  fst (DBService.init Reference.codec w) = Return DEFAULT_CHANNELS /\
  DEFAULT_CHANNELS <> [Reference.bunny].
Proof.
  repeat split; try (vm_compute; reflexivity); discriminate.
Qed.

(** What [init] does in the one case left open above: the fetch succeeds
    but the store refuses the copy.  The refusal is thrown
    inside the [try] that guards the fetch, so the fetched list is dropped
    and the built-in one returned. *)
Remark init_refused_copy_drops_fetch :
  let w := mkWorld (Reference.full ∅)
             (Reference.serving (Reference.stringify [Reference.bunny])) in
  Sources.remote_source Reference.codec w = Some [Reference.bunny] /\
  fst (DBService.init Reference.codec w) = Return DEFAULT_CHANNELS.
Proof. split; vm_compute; reflexivity. Qed.

(** The sources one by one: a stored collection; corrupt stored text and a
    seed file; a missing key and no network; a seed file that holds an empty
    array; a response that is not ok. *)
Example init_from_storage :
  let stored := {[ DBService.STORAGE_KEY := Reference.stringify [Reference.bunny] ]} in
  let w := mkWorld (Reference.roomy stored)
             (Reference.serving (Reference.stringify DEFAULT_CHANNELS)) in
  returned (DBService.init Reference.codec w) = Some [Reference.bunny].
Proof. vm_compute. reflexivity. Qed.

Example init_corrupt_storage_then_fetch :
  let stored := {[ DBService.STORAGE_KEY := "((" ]} in
  let w := mkWorld (Reference.roomy stored)
             (Reference.serving (Reference.stringify [Reference.bunny])) in
  returned (DBService.init Reference.codec w) = Some [Reference.bunny].
Proof. vm_compute. reflexivity. Qed.

Example init_missing_key_offline :
  let w := mkWorld (Reference.roomy ∅) Reference.offline in
  returned (DBService.init Reference.codec w) = Some DEFAULT_CHANNELS.
Proof. vm_compute. reflexivity. Qed.

Example init_empty_fetch :
  let w := mkWorld (Reference.roomy ∅)
             (Reference.serving (Reference.stringify [])) in
  returned (DBService.init Reference.codec w) = Some DEFAULT_CHANNELS.
Proof. vm_compute. reflexivity. Qed.

Example init_response_not_ok :
  let w := mkWorld (Reference.roomy ∅)
             (fun _ => FetchResponse false
                         (Reference.stringify [Reference.bunny])) in
  returned (DBService.init Reference.codec w) = Some DEFAULT_CHANNELS.
Proof. vm_compute. reflexivity. Qed.

(** ** Claims about the auth gate *)

Section AuthFacts.

Lemma login_wrong_password (password : string) (w : World) :
  password <> "admin" ->
  AuthService.login password w = (Return false, w).
Proof.
  intros Hne. unfold AuthService.login.
  destruct (String.eqb_spec password "admin"); [contradiction | reflexivity].
Qed.



End AuthFacts.



Example login_admin_example :
  let w := mkWorld (Reference.roomy ∅) Reference.offline in
  returned (AuthService.isAuthenticated w) = Some false /\
  returned (AuthService.login "admin" w) = Some true /\
  returned (AuthService.isAuthenticated (snd (AuthService.login "admin" w)))
  = Some true.
Proof. repeat split; vm_compute; reflexivity. Qed.

Example login_wrong_case_example :
  let w := mkWorld (Reference.roomy ∅) Reference.offline in
  let st := LoginModal.onChange "Admin" LoginModal.initial in
  returned (AuthService.login "Admin" w) = Some false /\
  snd (fst (LoginModal.handleSubmit st w)) = LoginModal.Refused /\
  LoginModal.error_indicator_shown (fst (fst (LoginModal.handleSubmit st w)))
  = true.
Proof. repeat split; vm_compute; reflexivity. Qed.

(** ** Claims about the application shell *)

Section AppFacts.
Variable J : JsonCodec.

(** Saving never throws, whatever the store does. *)
Lemma handleSaveChannels_result
  (updated : list Channel) (st : App.State) (w : World) :
  exists w',
    App.handleSaveChannels J updated st w =
    (Return (match App.find_by_id (App.currentChannelId st) updated,
                   updated with
             | None, c :: _ =>
                 App.setCurrentChannelId (id c) (App.setChannels updated st)
             | _, _ => App.setChannels updated st
             end), w').
Proof.
  unfold App.handleSaveChannels, bind, try_catch.
  destruct (saveAllChannels_total J updated w) as [w' ->].
  eauto.
Qed.

Lemma find_by_id_In (i : string) (cs : list Channel) (c : Channel) :
  App.find_by_id i cs = Some c -> In c cs /\ id c = i.
Proof.
  unfold App.find_by_id. intros H.
  apply find_some in H as [Hin Heq]. apply String.eqb_eq in Heq. auto.
Qed.

Lemma find_by_id_None (i : string) (cs : list Channel) :
  App.find_by_id i cs = None <-> forall c, In c cs -> id c <> i.
Proof.
  unfold App.find_by_id. rewrite find_no_match, List.Forall_forall.
  split; intros H c Hc; specialize (H c Hc).
  - now apply String.eqb_neq.
  - now apply String.eqb_neq.
Qed.

Lemma handleToggleFavorite_result
  (channelId : string) (st : App.State) (w : World) :
  exists st' w',
    App.handleToggleFavorite J channelId st w = (Return st', w') /\
    App.channels st' = App.toggled channelId (App.channels st).
Proof.
  unfold App.handleToggleFavorite.
  destruct (handleSaveChannels_result
              (App.toggled channelId (App.channels st)) st w) as [w' ->].
  eexists _, w'. split; [reflexivity|].
  destruct (App.find_by_id _ _); [reflexivity|].
  destruct (App.toggled _ _); reflexivity.
Qed.

End AppFacts.


Section ToggleFacts.

Lemma Forall2_map_self {A} (R : A -> A -> Prop) (f : A -> A) (l : list A) :
  (forall x, R x (f x)) -> Forall2 R l (map f l).
Proof. intros H. induction l; simpl; constructor; auto. Qed.

Lemma toggled_once (i : string) (cs : list Channel) :
  Forall2 (fun c c1 => id c1 = id c /\ (id c <> i -> c1 = c))
          cs (App.toggled i cs).
Proof.
  apply Forall2_map_self. intros c.
  destruct (String.eqb_spec (id c) i) as [Heq|Hne].
  - split; [reflexivity | intros Hne; contradiction].
  - split; reflexivity.
Qed.

Lemma toggled_twice (i : string) (cs : list Channel) :
  Forall2
    (fun c c2 =>
       id c2 = id c /\
       (id c <> i -> c2 = c) /\
       (id c = i ->
        truthy_flag (isFavorite c2) = truthy_flag (isFavorite c) /\
        (isFavorite c <> None -> c2 = c) /\
        (isFavorite c = None -> isFavorite c2 = Some false)))
    cs (App.toggled i (App.toggled i cs)).
Proof.
  unfold App.toggled. rewrite map_map.
  apply Forall2_map_self. intros c.
  destruct (String.eqb_spec (id c) i) as [Heq|Hne]; simpl.
  - subst i. rewrite String.eqb_refl.
    split; [reflexivity|]. split; [intros Hne; now elim Hne|]. intros _.
    destruct c as [? ? ? ? ? ? ? ? [[|]|]]; simpl;
      (split; [reflexivity|]); split;
      first [ intros _; reflexivity | congruence ].
  - destruct (String.eqb_spec (id c) i); [contradiction|].
    split; [reflexivity|]. split; [reflexivity | contradiction].
Qed.

End ToggleFacts.

(** C7 (as found in the code).  Toggling the favourite flag of a channel
    leaves every channel with another id unchanged.  Toggling twice brings
    the channel's flag back to what it read as (favourite or not); the
    channel is exactly as before when its [isFavorite] field was present,
    and when the field was absent it is now present and false. *)
Theorem handleToggleFavorite_twice
  (J : JsonCodec) (i : string) (st : App.State) (w : World) :
  exists st1 w1 st2 w2,
    App.handleToggleFavorite J i st w = (Return st1, w1) /\
    App.handleToggleFavorite J i st1 w1 = (Return st2, w2) /\
    Forall2 (fun c c1 => id c1 = id c /\ (id c <> i -> c1 = c))
            (App.channels st) (App.channels st1) /\
    Forall2
      (fun c c2 =>
         id c2 = id c /\
         (id c <> i -> c2 = c) /\
         (id c = i ->
          truthy_flag (isFavorite c2) = truthy_flag (isFavorite c) /\
          (isFavorite c <> None -> c2 = c) /\
          (isFavorite c = None -> isFavorite c2 = Some false)))
      (App.channels st) (App.channels st2).
Proof.
  destruct (handleToggleFavorite_result J i st w) as (st1 & w1 & H1 & E1).
  destruct (handleToggleFavorite_result J i st1 w1) as (st2 & w2 & H2 & E2).
  exists st1, w1, st2, w2. split; [exact H1|]. split; [exact H2|].
  rewrite E2, E1. split; [apply toggled_once | apply toggled_twice].
Qed.

(** C7 as stated fails on a channel whose [isFavorite] field is absent, as
    for "nature1" in the built-in list: after two toggles the field is
    [false], not absent. *)
Lemma handleToggleFavorite_twice_counterexample :
  let w := mkWorld (Reference.roomy ∅) Reference.offline in
  let st := App.setChannels DEFAULT_CHANNELS (App.initial 1280) in
  map isFavorite DEFAULT_CHANNELS = [Some true; None; None; None; None] /\
  option_map (fun st2 => map isFavorite (App.channels st2))
    (returned
       ((let* st1 := App.handleToggleFavorite Reference.codec "nature1" st in
         App.handleToggleFavorite Reference.codec "nature1" st1) w))
  = Some [Some true; Some false; None; None; None].
Proof. split; vm_compute; reflexivity. Qed.


Lemma name_contains_split (i : string) (c : Channel) :
  name_contains i c = true <->
  exists p q, JsString.toLowerCase (name c) = p +:+ JsString.toLowerCase i +:+ q.
Proof. apply includes_split. Qed.

Lemma id_contains_split (i : string) (c : Channel) :
  id_contains i c = true <-> exists p q, id c = p +:+ i +:+ q.
Proof. apply includes_split. Qed.

Example handleChannelChange_by_name :
  App.currentChannelId
    (App.handleChannelChange 1280 "zen"
       (App.setChannels DEFAULT_CHANNELS (App.initial 1280)))
  = "nature1".
Proof. reflexivity. Qed.

Example handleChannelChange_by_id_part :
  App.currentChannelId
    (App.handleChannelChange 1280 "ne1"
       (App.setChannels DEFAULT_CHANNELS (App.initial 1280)))
  = "cine1".
Proof. reflexivity. Qed.

Example handleChannelChange_unknown :
  let st := App.setCurrentChannelId "live1"
              (App.setChannels DEFAULT_CHANNELS (App.initial 1280)) in
  App.handleChannelChange 1280 "arte" st = st.
Proof. reflexivity. Qed.

(** ** The active channel, over the life of the shell *)

Section ShellInvariant.
Variable J : JsonCodec.

Lemma find_target_In (i : string) (cs : list Channel) (c : Channel) :
  App.find_target i cs = Some c -> In c cs.
Proof.
  assert (Hor : forall a b : option Channel,
             App.or_else a b = Some c -> a = Some c \/ b = Some c)
    by (intros [x|] b; simpl; auto).
  unfold App.find_target, App.find_by_id. intros H.
  apply Hor in H as [H|H]; [|apply Hor in H as [H|H]];
    now apply find_some in H.
Qed.

Lemma handleChannelChange_keeps_active
  (innerWidth : Z) (i : string) (st : App.State) :
  active_exists st -> active_exists (App.handleChannelChange innerWidth i st).
Proof.
  intros Hst. unfold App.handleChannelChange.
  destruct (App.find_target i (App.channels st)) as [target|] eqn:Hfind;
    [|exact Hst].
  apply find_target_In in Hfind.
  intros _. exists target.
  destruct (innerWidth <? 1024)%Z; simpl; auto.
Qed.

Lemma handleSaveChannels_establishes_active
  (updated : list Channel) (st st' : App.State) (w w' : World) :
  App.handleSaveChannels J updated st w = (Return st', w') ->
  active_exists st'.
Proof.
  destruct (handleSaveChannels_result J updated st w) as [w1 ->].
  intros [= <- _].
  destruct (App.find_by_id _ updated) as [c0|] eqn:Hfind.
  - apply find_by_id_In in Hfind as [Hin Hid]. intros _. exists c0. auto.
  - destruct updated as [|c rest]; intros Hne; simpl in *.
    + contradiction.
    + exists c. auto.
Qed.

Lemma initApp_establishes_active (st st' : App.State) (w w' : World) :
  App.initApp J st w = (Return st', w') ->
  active_exists st'.
Proof.
  unfold App.initApp, bind, try_catch.
  destruct (init_never_throws J w) as (cs & w1 & ->).
  intros [= <- _].
  destruct cs as [|c rest]; intros Hne; simpl in *.
  - contradiction.
  - exists c. auto.
Qed.

Lemma settle_cases {A} (m : M A) (a : A) (w : World) :
  (exists a' w', m w = (Return a', w') /\ settle m a w = (a', w')) \/
  (exists w', settle m a w = (a, w')).
Proof.
  unfold settle. destruct (m w) as [[a'|e] w']; eauto.
Qed.

Lemma app_step_keeps_active (sw : App.State * World) (e : AppEvent) :
  active_exists (fst sw) -> active_exists (fst (app_step J sw e)).
Proof.
  destruct sw as [st w]. simpl. intros Hst.
  destruct e as [|innerWidth i|updated|channelId|r]; simpl.
  - destruct (settle_cases (App.initApp J st) st w)
      as [(st' & w' & Hrun & ->)|[w' ->]]; simpl; [|exact Hst].
    eapply initApp_establishes_active; eauto.
  - now apply handleChannelChange_keeps_active.
  - destruct (settle_cases (App.handleSaveChannels J updated st) st w)
      as [(st' & w' & Hrun & ->)|[w' ->]]; simpl; [|exact Hst].
    eapply handleSaveChannels_establishes_active; eauto.
  - unfold App.handleToggleFavorite.
    destruct (settle_cases
                (App.handleSaveChannels J
                   (App.toggled channelId (App.channels st)) st) st w)
      as [(st' & w' & Hrun & ->)|[w' ->]]; simpl; [|exact Hst].
    eapply handleSaveChannels_establishes_active; eauto.
  - unfold App.handleRateChannel.
    destruct (App.currentChannel st) as [cur|]; [|exact Hst].
    match goal with |- context [settle ?m st w] =>
      destruct (settle_cases m st w)
        as [(st' & w' & Hrun & ->)|[w' ->]] end; simpl; [|exact Hst].
    eapply handleSaveChannels_establishes_active; eauto.
Qed.

(** X8.  From the initial state, whatever happens, the active id refers
    to a channel of the collection whenever the collection is not empty. *)
Lemma active_exists_always
  (innerWidth : Z) (w : World) (events : list AppEvent) :
  active_exists (fst (fold_left (app_step J) events (App.initial innerWidth, w))).
Proof.
  assert (Hinit : active_exists (fst (App.initial innerWidth, w)))
    by (intros Hne; now elim Hne).
  revert Hinit. generalize (App.initial innerWidth, w).
  induction events as [|e events IH]; intros sw Hsw; simpl; [exact Hsw|].
  apply IH. now apply app_step_keeps_active.
Qed.

End ShellInvariant.

(** Deleting the active channel, then deleting every channel. *)
Example delete_active_channel :
  let w := mkWorld (Reference.roomy ∅) Reference.offline in
  let run := fold_left (app_step Reference.codec)
               [Mount; ChannelRequest 1280 "cine1";
                Publish (List.filter (fun c => negb (String.eqb (id c) "cine1"))
                           DEFAULT_CHANNELS)]
               (App.initial 1280, w) in
  App.currentChannelId (fst run) = "live1" /\
  App.currentChannelId (fst (app_step Reference.codec run (Publish [])))
  = "live1" /\
  App.currentChannel (fst (app_step Reference.codec run (Publish []))) = None.
Proof. repeat split; vm_compute; reflexivity. Qed.

(** ** Claims about the media session *)

Section PlayerFacts.
Import VideoPlayer.

Lemma attemptAutoPlay_calls (b : Browser) (st : State) :
  calls (attemptAutoPlay b st) =
  calls st ++ VideoPlay false ::
    match playResult b false with
    | PlayRejected => [VideoPlay true]
    | _ => []
    end.
Proof.
  unfold attemptAutoPlay, play. simpl.
  destruct (playResult b false); simpl; try reflexivity.
  destruct (playResult b true); simpl; now rewrite <- app_assoc.
Qed.

Lemma attemptAutoPlay_isBuffering (b : Browser) (st : State) :
  isBuffering (attemptAutoPlay b st) = isBuffering st.
Proof.
  unfold attemptAutoPlay, play. simpl.
  destruct (playResult b false); simpl; try reflexivity.
  destruct (playResult b true); reflexivity.
Qed.


Lemma attemptAutoPlay_rejected_twice (b : Browser) (st : State) :
  playResult b false = PlayRejected ->
  playResult b true = PlayRejected ->
  isPlaying (attemptAutoPlay b st) = false.
Proof.
  intros H1 H2. unfold attemptAutoPlay, play. simpl.
  rewrite H1. simpl. now rewrite H2.
Qed.

End PlayerFacts.

(** C3 (as found in the code).  The error handler acts on fatal errors
    only: a fatal network error restarts loading, a fatal media error
    starts decoder recovery, any other fatal error destroys the streaming
    client.  A non-fatal error changes nothing.  In no case does the
    handler touch the playing or buffering flags, or pause the video. *)
Theorem onHlsError_recovery
  (data : VideoPlayer.ErrorData) (st : VideoPlayer.State) :
  let st' := VideoPlayer.onHlsError data st in
  (VideoPlayer.fatal data = false -> st' = st) /\
  (VideoPlayer.fatal data = true ->
   VideoPlayer.type data = VideoPlayer.NETWORK_ERROR ->
   VideoPlayer.calls st' = VideoPlayer.calls st ++ [VideoPlayer.HlsStartLoad]) /\
  (VideoPlayer.fatal data = true ->
   VideoPlayer.type data = VideoPlayer.MEDIA_ERROR ->
   VideoPlayer.calls st' =
   VideoPlayer.calls st ++ [VideoPlayer.HlsRecoverMediaError]) /\
  (VideoPlayer.fatal data = true ->
   VideoPlayer.type data <> VideoPlayer.NETWORK_ERROR ->
   VideoPlayer.type data <> VideoPlayer.MEDIA_ERROR ->
   VideoPlayer.calls st' = VideoPlayer.calls st ++ [VideoPlayer.HlsDestroy]) /\
  VideoPlayer.isPlaying st' = VideoPlayer.isPlaying st /\
  VideoPlayer.isBuffering st' = VideoPlayer.isBuffering st.
Proof.
  unfold VideoPlayer.onHlsError.
  destruct data as [[|] []]; simpl; repeat split; intros;
    try discriminate; try reflexivity; contradiction.
Qed.

(** C3 as stated fails: a non-fatal network error triggers no reload, a
    non-fatal media error no decoder recovery, another non-fatal error no
    teardown; a fatal network error does not stop playback (loading is
    restarted); and after a fatal error of another kind the client is
    destroyed but the interface still shows the playing state. *)
Lemma onHlsError_recovery_counterexample :
  let st := VideoPlayer.onManifestParsed Reference.permissive
              (VideoPlayer.loadChannel Reference.permissive LIVE_STREAM_URL
                 VideoPlayer.initial) in
  let error f t := VideoPlayer.onHlsError (VideoPlayer.mkErrorData f t) st in
  error false VideoPlayer.NETWORK_ERROR = st /\
  error false VideoPlayer.MEDIA_ERROR = st /\
  error false VideoPlayer.OTHER_ERROR = st /\
  VideoPlayer.calls (error true VideoPlayer.NETWORK_ERROR)
  = VideoPlayer.calls st ++ [VideoPlayer.HlsStartLoad] /\
  VideoPlayer.isPlaying st = true /\
  VideoPlayer.isPlaying (error true VideoPlayer.OTHER_ERROR) = true.
Proof. repeat split. Qed.



Section LoadFacts.
Import VideoPlayer.

(** Loading an adaptive source attempts no playback by itself: that waits
    for the manifest (or, natively, the metadata). *)
Lemma loadChannel_adaptive_defers_play
  (b : Browser) (videoUrl : string) (st : State) (m : bool) :
  isHlsSource videoUrl = true ->
  In (VideoPlay m) (calls (loadChannel b videoUrl st)) ->
  In (VideoPlay m) (calls st).
Proof.
  intros Hhls. unfold loadChannel. rewrite Hhls.
  destruct (hlsRef st) eqn:Href, (hlsSupported b), (nativeHls b); simpl;
    rewrite ?Href; simpl; rewrite ?in_app_iff; simpl;
    rewrite ?in_app_iff; simpl; intuition discriminate.
Qed.

End LoadFacts.

(** C8 (as found in the code).  Whenever playback is attempted
    automatically, it is attempted unmuted first; if that attempt is
    rejected it is retried muted, and only then; if the retry is rejected
    too, the player is left not playing.  The attempt is made at once when
    a progressive source is loaded; for an adaptive source loading makes no
    attempt, which waits for the manifest (hls.js) or the metadata (native
    support), where the buffering flag is cleared first, so that after two
    rejections the play overlay is shown. *)
Theorem attemptAutoPlay_fallback (b : VideoPlayer.Browser) (st : VideoPlayer.State) :
  let st' := VideoPlayer.attemptAutoPlay b st in
  (exists retry,
     VideoPlayer.calls st' =
     VideoPlayer.calls st ++ VideoPlayer.VideoPlay false :: retry) /\
  (VideoPlayer.playResult b false <> VideoPlayer.PlayRejected ->
   VideoPlayer.calls st' =
   VideoPlayer.calls st ++ [VideoPlayer.VideoPlay false] /\
   VideoPlayer.videoMuted st' = false) /\
  (VideoPlayer.playResult b false = VideoPlayer.PlayRejected ->
   VideoPlayer.calls st' =
   VideoPlayer.calls st ++
     [VideoPlayer.VideoPlay false; VideoPlayer.VideoPlay true] /\
   VideoPlayer.videoMuted st' = true /\
   VideoPlayer.isMuted st' = true /\
   (VideoPlayer.playResult b true <> VideoPlayer.PlayRejected ->
    VideoPlayer.isPlaying st' = true) /\
   (VideoPlayer.playResult b true = VideoPlayer.PlayRejected ->
    VideoPlayer.isPlaying st' = false /\
    (VideoPlayer.isBuffering st = false ->
     VideoPlayer.playOverlayShown st' = true) /\
    VideoPlayer.playOverlayShown (VideoPlayer.onManifestParsed b st) = true /\
    VideoPlayer.playOverlayShown (VideoPlayer.onLoadedMetadata b st) = true)) /\
  (forall videoUrl,
     VideoPlayer.isHlsSource videoUrl = false ->
     exists setup retry,
       VideoPlayer.calls (VideoPlayer.loadChannel b videoUrl st) =
       VideoPlayer.calls st ++ setup ++ VideoPlayer.VideoPlay false :: retry /\
       Forall (fun c => forall m, c <> VideoPlayer.VideoPlay m) setup) /\
  (forall videoUrl m,
     VideoPlayer.isHlsSource videoUrl = true ->
     In (VideoPlayer.VideoPlay m)
        (VideoPlayer.calls (VideoPlayer.loadChannel b videoUrl st)) ->
     In (VideoPlayer.VideoPlay m) (VideoPlayer.calls st)).
Proof.
  intros st'. subst st'. split; [|split; [|split; [|split]]].
  - rewrite attemptAutoPlay_calls. eauto.
  - intros Hok. rewrite attemptAutoPlay_calls.
    unfold VideoPlayer.attemptAutoPlay, VideoPlayer.play. simpl.
    destruct (VideoPlayer.playResult b false); try contradiction;
      split; reflexivity.
  - intros Hrej. rewrite attemptAutoPlay_calls, Hrej.
    split; [reflexivity|].
    unfold VideoPlayer.onManifestParsed, VideoPlayer.onLoadedMetadata.
    unfold VideoPlayer.attemptAutoPlay, VideoPlayer.play,
           VideoPlayer.playOverlayShown. simpl.
    rewrite Hrej. simpl.
    destruct (VideoPlayer.playResult b true); simpl;
      repeat split; intros; try discriminate; try reflexivity;
      try contradiction.
    match goal with H : VideoPlayer.isBuffering st = false |- _ =>
      now rewrite H end.
  - intros videoUrl Hprog. unfold VideoPlayer.loadChannel. rewrite Hprog.
    rewrite attemptAutoPlay_calls. simpl.
    exists ((if VideoPlayer.hlsRef st then [VideoPlayer.HlsDestroy] else [])
            ++ [VideoPlayer.VideoSetSrc videoUrl; VideoPlayer.VideoLoad]).
    eexists. split.
    + destruct (VideoPlayer.hlsRef st); simpl;
        rewrite <- ?app_assoc; reflexivity.
    + destruct (VideoPlayer.hlsRef st); simpl;
        repeat constructor; discriminate.
  - intros videoUrl m. apply loadChannel_adaptive_defers_play.
Qed.

(** C8 as stated fails where the platform supports no adaptive streaming:
    loading an adaptive channel attempts no playback at all and registers
    nothing that would.  And after a progressive source is loaded and both
    attempts are rejected, no play overlay is shown: the buffering flag is
    still set and the spinner covers the player. *)
Lemma attemptAutoPlay_fallback_counterexample :
  (VideoPlayer.isHlsSource LIVE_STREAM_URL = true /\
   VideoPlayer.calls
     (VideoPlayer.loadChannel Reference.no_adaptive LIVE_STREAM_URL
        VideoPlayer.initial) = []) /\
  (let st := VideoPlayer.loadChannel Reference.strict
               (videoUrl Reference.bunny) VideoPlayer.initial in
   VideoPlayer.calls st =
   [VideoPlayer.VideoSetSrc (videoUrl Reference.bunny); VideoPlayer.VideoLoad;
    VideoPlayer.VideoPlay false; VideoPlayer.VideoPlay true] /\
   VideoPlayer.isPlaying st = false /\
   VideoPlayer.playOverlayShown st = false /\
   VideoPlayer.bufferingOverlayShown st = true).
Proof. repeat split. Qed.

(** An adaptive channel in a browser that refuses every autoplay: once the
    manifest is parsed both attempts are made and the play overlay shows. *)
Example adaptive_autoplay_refused :
  let st := VideoPlayer.onManifestParsed Reference.strict
              (VideoPlayer.loadChannel Reference.strict LIVE_STREAM_URL
                 VideoPlayer.initial) in
  VideoPlayer.calls st =
  [VideoPlayer.HlsCreate; VideoPlayer.HlsLoadSource LIVE_STREAM_URL;
   VideoPlayer.HlsAttachMedia; VideoPlayer.VideoPlay false;
   VideoPlayer.VideoPlay true] /\
  VideoPlayer.isPlaying st = false /\
  VideoPlayer.isMuted st = true /\
  VideoPlayer.playOverlayShown st = true.
Proof. repeat split. Qed.

(** A progressive channel in a browser that lets everything play. *)
Example progressive_autoplay_allowed :
  let st := VideoPlayer.loadChannel Reference.permissive
              (videoUrl Reference.bunny) VideoPlayer.initial in
  VideoPlayer.calls st =
  [VideoPlayer.VideoSetSrc (videoUrl Reference.bunny); VideoPlayer.VideoLoad;
   VideoPlayer.VideoPlay false] /\
  VideoPlayer.isPlaying st = true /\
  VideoPlayer.isMuted st = false.
Proof. repeat split. Qed.

(** ** Claims about the voice assistant *)

Section VoiceFacts.
Import GeminiLive.

Lemma release_gone (field : option nat) (live : gset nat) (h : nat) :
  field = Some h -> h ∉ release field live.
Proof. intros ->. unfold release. set_solver. Qed.

Lemma release_held (field : option nat) (live : gset nat) :
  held_by field live -> release field live = ∅.
Proof.
  unfold held_by, release. intros H.
  destruct field as [h|].
  - apply set_eq. intros x. split; [|set_solver].
    intros Hx. apply elem_of_difference in Hx as [Hin Hne].
    specialize (H x Hin). set_solver.
  - apply set_eq. intros x. split; [|set_solver].
    intros Hx. specialize (H x Hx). discriminate.
Qed.

(** [disconnect] releases the microphone stream, closes the session and
    stops every scheduled playback source the service refers to, and
    clears the fields. *)
Lemma disconnect_releases (s : Service) (n : Native) :
  let s' := fst (disconnect s n) in
  let n' := snd (disconnect s n) in
  (forall h, stream s = Some h -> h ∉ liveStreams n') /\
  (forall h, session s = Some h -> h ∉ openSessions n') /\
  (forall h, h ∈ sources s -> h ∉ startedSources n') /\
  stream s' = None /\ session s' = None /\ sources s' = ∅.
Proof.
  simpl. repeat split.
  - intros h. apply release_gone.
  - intros h. apply release_gone.
  - intros h Hh. set_solver.
Qed.

Lemma disconnect_tracked_released (s : Service) (n : Native) :
  tracked s n -> VoiceRemote.released (snd (disconnect s n)).
Proof.
  intros (Hs & Hc & Hp). unfold VoiceRemote.released. simpl.
  rewrite (release_held _ _ Hs), (release_held _ _ Hc).
  repeat split. set_solver.
Qed.

(** The [onclose] and [onerror] callbacks release nothing. *)
Lemma sessionError_keeps_everything (v : VoiceRemote.State) :
  VoiceRemote.service (VoiceRemote.sessionError v) = VoiceRemote.service v /\
  VoiceRemote.native (VoiceRemote.sessionError v) = VoiceRemote.native v /\
  VoiceRemote.status (VoiceRemote.sessionError v) = ERROR.
Proof. repeat split. Qed.

Lemma sessionClosed_keeps_everything (v : VoiceRemote.State) :
  VoiceRemote.service (VoiceRemote.sessionClosed v) = VoiceRemote.service v /\
  VoiceRemote.native (VoiceRemote.sessionClosed v) = VoiceRemote.native v /\
  VoiceRemote.status (VoiceRemote.sessionClosed v) = DISCONNECTED.
Proof. repeat split. Qed.

(** X23.  The explicit stop: in the connected or connecting state the
    button disconnects, and everything tracked is released. *)
Lemma toggleConnection_stop_releases
  (a : Attempt) (v : VoiceRemote.State) :
  VoiceRemote.status v = CONNECTED \/ VoiceRemote.status v = CONNECTING ->
  tracked (VoiceRemote.service v) (VoiceRemote.native v) ->
  VoiceRemote.status (VoiceRemote.toggleConnection a v) = DISCONNECTED /\
  VoiceRemote.released (VoiceRemote.native (VoiceRemote.toggleConnection a v)).
Proof.
  intros Hst Htr. unfold VoiceRemote.toggleConnection.
  pose proof (disconnect_tracked_released _ _ Htr) as Hrel.
  destruct (disconnect (VoiceRemote.service v) (VoiceRemote.native v))
    as [s' n'] eqn:Hd.
  destruct Hst as [-> | ->]; simpl; split; auto.
Qed.

End VoiceFacts.

(** C5, on the code.  A session is opened with everything granted, then the
    transport fails ([onerror]) or the session closes ([onclose]).  In
    both cases the microphone stream is still running and the service
    still holds the session: nothing was released.  After the error the
    button starts a new connection rather than disconnecting; the first
    microphone stream keeps running and nothing refers to it any more. *)
Theorem session_exit_keeps_microphone :
  let connected :=
    VoiceRemote.sessionOpened
      (VoiceRemote.toggleConnection Reference.granted VoiceRemote.initial) in
  let failed := VoiceRemote.sessionError connected in
  let closed := VoiceRemote.sessionClosed connected in
  let retried := VoiceRemote.toggleConnection Reference.granted failed in
  VoiceRemote.status connected = CONNECTED /\
  tracked (VoiceRemote.service connected) (VoiceRemote.native connected) /\
  (VoiceRemote.status failed = ERROR /\
   GeminiLive.stream (VoiceRemote.service failed) = Some 2 /\
   2 ∈ GeminiLive.liveStreams (VoiceRemote.native failed) /\
   3 ∈ GeminiLive.openSessions (VoiceRemote.native failed)) /\
  (VoiceRemote.status closed = DISCONNECTED /\
   GeminiLive.stream (VoiceRemote.service closed) = Some 2 /\
   2 ∈ GeminiLive.liveStreams (VoiceRemote.native closed)) /\
  (GeminiLive.stream (VoiceRemote.service retried) = Some 8 /\
   2 ∈ GeminiLive.liveStreams (VoiceRemote.native retried) /\
   ~ tracked (VoiceRemote.service retried) (VoiceRemote.native retried)).
Proof.
  simpl. split; [reflexivity|]. split; [|split; [|split]].
  - unfold tracked, held_by. simpl. repeat split.
    + intros h Hh. f_equal. set_solver.
    + intros h Hh. f_equal. set_solver.
    + set_solver.
  - repeat split; set_solver.
  - repeat split; set_solver.
  - split; [reflexivity|]. split; [set_solver|].
    intros (Hs & _). specialize (Hs 2). simpl in Hs.
    assert (Some 8 = Some 2) as Habs by (apply Hs; set_solver).
    discriminate.
Qed.

(** ** The statements at concrete inputs *)


(** C3 at a concrete input: a fatal network error on a playing session. *)
Lemma onHlsError_recovery_witness :
  let st := VideoPlayer.onManifestParsed Reference.permissive
              (VideoPlayer.loadChannel Reference.permissive LIVE_STREAM_URL
                 VideoPlayer.initial) in
  let data := VideoPlayer.mkErrorData true VideoPlayer.NETWORK_ERROR in
  VideoPlayer.calls (VideoPlayer.onHlsError data st) =
  VideoPlayer.calls st ++ [VideoPlayer.HlsStartLoad].
Proof.
  intros st data.
  destruct (onHlsError_recovery data st) as (_ & Hnet & _).
  exact (Hnet eq_refl eq_refl).
Defined.

(** C4 at concrete inputs: a stored collection is returned; with nothing
    stored, the fetched one is. *)
Lemma init_priority_order_witness :
  let stored := {[ DBService.STORAGE_KEY := Reference.stringify [Reference.bunny] ]} in
  let w1 := mkWorld (Reference.roomy stored) Reference.offline in
  let w2 := mkWorld (Reference.roomy ∅)
              (Reference.serving (Reference.stringify [Reference.bunny])) in
  (exists w', DBService.init Reference.codec w1 = (Return [Reference.bunny], w')) /\
  (exists w', DBService.init Reference.codec w2 = (Return [Reference.bunny], w')).
Proof.
  intros stored w1 w2. split.
  - destruct (init_priority_order Reference.codec w1)
      as (cs & w' & Hinit & _ & Hlocal & _).
    exists w'. rewrite Hinit. f_equal. f_equal. apply Hlocal.
    vm_compute. reflexivity.
  - destruct (init_priority_order Reference.codec w2)
      as (cs & w' & Hinit & _ & _ & Hremote & _).
    exists w'. rewrite Hinit. f_equal. f_equal. apply Hremote.
    + reflexivity.
    + vm_compute. reflexivity.
    + vm_compute. reflexivity.
    + split; [reflexivity | vm_compute; discriminate].
Defined.


(** C7 at a concrete input: the favourite flag of "live1" is present, and
    after two toggles the collection is what it was. *)
Lemma handleToggleFavorite_twice_witness :
  let w := mkWorld (Reference.roomy ∅) Reference.offline in
  let st := App.setChannels (firstn 1 DEFAULT_CHANNELS) (App.initial 1280) in
  exists st1 w1 st2 w2,
    App.handleToggleFavorite Reference.codec "live1" st w = (Return st1, w1) /\
    App.handleToggleFavorite Reference.codec "live1" st1 w1 = (Return st2, w2) /\
    App.channels st2 = App.channels st.
Proof.
  intros w st.
  destruct (handleToggleFavorite_twice Reference.codec "live1" st w)
    as (st1 & w1 & st2 & w2 & H1 & H2 & _ & Htwice).
  exists st1, w1, st2, w2. split; [exact H1|]. split; [exact H2|].
  simpl in Htwice.
  inversion Htwice as [|c c2 l l2 (_ & _ & Hsame) Hrest Hc Hl2].
  inversion Hrest. subst.
  destruct (Hsame eq_refl) as (_ & Hpresent & _).
  rewrite Hpresent; [reflexivity | discriminate].
Defined.

(** C8 at a concrete input: both attempts are rejected, the buffering flag
    being clear. *)
Lemma attemptAutoPlay_fallback_witness :
  let st := VideoPlayer.setIsBuffering false VideoPlayer.initial in
  let st' := VideoPlayer.attemptAutoPlay Reference.strict st in
  VideoPlayer.calls st' =
  VideoPlayer.calls st ++
    [VideoPlayer.VideoPlay false; VideoPlayer.VideoPlay true] /\
  VideoPlayer.isPlaying st' = false /\
  VideoPlayer.playOverlayShown st' = true.
Proof.
  intros st st'.
  destruct (attemptAutoPlay_fallback Reference.strict st)
    as (_ & _ & Hrejected & _).
  destruct (Hrejected eq_refl) as (Hcalls & _ & _ & _ & Htwice).
  destruct (Htwice eq_refl) as (Hpaused & Hoverlay & _).
  split; [exact Hcalls|]. split; [exact Hpaused|]. exact (Hoverlay eq_refl).
Defined.



(* ===================================================================== *)
(** * Further properties of the code                                      *)
(* ===================================================================== *)

(** ** What a computation may touch in local storage *)

Section Frame.

Lemma writes_only_ret {A} (key : string) (a : A) : writes_only key (ret a).
Proof. intros w. simpl. repeat split; auto. Qed.

Lemma writes_only_throw {A} (key : string) (e : Error) :
  writes_only key (@throw A e).
Proof. intros w. simpl. repeat split; auto. Qed.

Lemma writes_only_bind {A B} (key : string) (m : M A) (k : A -> M B) :
  writes_only key m -> (forall a, writes_only key (k a)) ->
  writes_only key (bind m k).
Proof.
  intros Hm Hk w. specialize (Hm w). unfold bind.
  destruct (m w) as [[a|e] w1]; simpl in *; [|exact Hm].
  specialize (Hk a w1). simpl in Hk.
  destruct Hm as (N1 & D1 & Q1 & I1), Hk as (N2 & D2 & Q2 & I2).
  repeat split; try congruence.
  intros k' Hk'. rewrite I2, I1; auto.
Qed.

Lemma writes_only_try_catch {A} (key : string) (m : M A) (h : Error -> M A) :
  writes_only key m -> (forall e, writes_only key (h e)) ->
  writes_only key (try_catch m h).
Proof.
  intros Hm Hh w. specialize (Hm w). unfold try_catch.
  destruct (m w) as [[a|e] w1]; simpl in *; [exact Hm|].
  specialize (Hh e w1). simpl in Hh.
  destruct Hm as (N1 & D1 & Q1 & I1), Hh as (N2 & D2 & Q2 & I2).
  repeat split; try congruence.
  intros k' Hk'. rewrite I2, I1; auto.
Qed.

Lemma writes_only_getItem (key k : string) : writes_only key (getItem k).
Proof.
  intros w. unfold getItem. cbv zeta.
  destruct (denied (localStorage w)) eqn:Hd; simpl; repeat split; auto.
Qed.

Lemma writes_only_setItem (key value : string) :
  writes_only key (setItem key value).
Proof.
  intros w. unfold setItem. cbv zeta.
  destruct (denied (localStorage w)) eqn:Hd; simpl; [repeat split; auto|].
  destruct (_ <=? _)%N; simpl; repeat split; auto.
  intros k Hk. now rewrite lookup_insert_ne.
Qed.

Lemma writes_only_removeItem (key : string) : writes_only key (removeItem key).
Proof.
  intros w. unfold removeItem. cbv zeta.
  destruct (denied (localStorage w)) eqn:Hd; simpl; repeat split; auto.
  intros k Hk. now rewrite lookup_delete_ne.
Qed.

Lemma writes_only_fetch (key url : string) : writes_only key (fetch url).
Proof.
  intros w. unfold fetch.
  destruct (network w url); simpl; repeat split; auto.
Qed.

Lemma writes_only_parse (key : string) (J : JsonCodec) (text : string) :
  writes_only key (parse J text).
Proof.
  unfold parse. destruct (JSON_parse J text);
    [apply writes_only_ret | apply writes_only_throw].
Qed.

End Frame.

Create HintDb frame.
#[local] Hint Resolve writes_only_ret writes_only_throw writes_only_getItem
  writes_only_setItem writes_only_removeItem writes_only_fetch
  writes_only_parse : frame.

Ltac frame :=
  repeat first
    [ solve [auto with frame]
    | apply writes_only_bind; [|intros ?]
    | apply writes_only_try_catch; [|intros ?]
    | match goal with
      | |- writes_only _ (match ?x with _ => _ end) => destruct x
      | |- writes_only _ (if ?x then _ else _) => destruct x
      end ].

Section FrameOfServices.
Variable J : JsonCodec.

Lemma init_writes_only :
  writes_only DBService.STORAGE_KEY (DBService.init J).
Proof.
  unfold DBService.init, DBService.from_storage, DBService.from_json_file.
  frame.
Qed.

Lemma saveAllChannels_writes_only (cs : list Channel) :
  writes_only DBService.STORAGE_KEY (DBService.saveAllChannels J cs).
Proof. unfold DBService.saveAllChannels. frame. Qed.

Lemma handleSaveChannels_writes_only (cs : list Channel) (st : App.State) :
  writes_only DBService.STORAGE_KEY (App.handleSaveChannels J cs st).
Proof.
  unfold App.handleSaveChannels. frame.
Qed.

Lemma login_writes_only (password : string) :
  writes_only AuthService.AUTH_KEY (AuthService.login password).
Proof. unfold AuthService.login. frame. Qed.

Lemma logout_writes_only : writes_only AuthService.AUTH_KEY AuthService.logout.
Proof. unfold AuthService.logout. frame. Qed.

Lemma isAuthenticated_reads_only (key : string) :
  writes_only key AuthService.isAuthenticated.
Proof. unfold AuthService.isAuthenticated. frame. Qed.

End FrameOfServices.

(** ** More about the channel store *)

Section StoreFacts.
Variable J : JsonCodec.

Lemma nonempty_array_nonempty (v : JsonValue) (l : list Channel) :
  nonempty_array v = Some l -> l <> [].
Proof. destruct v as [[|c cs]|]; simpl; intros [= <-]; discriminate. Qed.

Lemma collection_of_nonempty (text : string) (l : list Channel) :
  Sources.collection_of J text = Some l -> l <> [].
Proof.
  unfold Sources.collection_of. destruct (JSON_parse J text); [|discriminate].
  apply nonempty_array_nonempty.
Qed.

Lemma local_source_nonempty (w : World) (l : list Channel) :
  Sources.local_source J w = Some l -> l <> [].
Proof.
  unfold Sources.local_source.
  destruct (denied _); [discriminate|].
  destruct (_ !! _) as [text|]; [|discriminate].
  destruct (JsString.truthy text); [|discriminate].
  apply collection_of_nonempty.
Qed.

Lemma from_json_file_cases (w : World) :
  DBService.from_json_file J w = (Return None, w) \/
  exists l,
    l <> [] /\
    Sources.remote_source J w = Some l /\
    Sources.accepts w DBService.STORAGE_KEY (JSON_stringify J l) /\
    DBService.from_json_file J w =
    (Return (Some l), Sources.with_stored w (JSON_stringify J l)).
Proof.
  unfold Sources.remote_source, Sources.collection_of.
  unfold DBService.from_json_file, try_catch, bind, fetch, parse.
  destruct (network w DBService.JSON_SOURCE) as [|[|] body]; simpl; auto.
  destruct (JSON_parse J body) as [v|]; simpl; auto.
  destruct (nonempty_array v) as [cs|] eqn:Hv; simpl; auto.
  destruct (setItem_cases w DBService.STORAGE_KEY (JSON_stringify J cs))
    as [[e ->]|[Hacc ->]]; simpl; auto.
  right. exists cs. split; [eapply nonempty_array_nonempty; eauto|].
  auto.
Qed.

Lemma default_channels_nonempty : DEFAULT_CHANNELS <> [].
Proof. discriminate. Qed.

(** How [init] ends, case by case, with the world it leaves. *)
Lemma init_cases (w : World) :
  (denied (localStorage w) = true /\
   DBService.init J w = (Return DEFAULT_CHANNELS, w)) \/
  (exists l, Sources.local_source J w = Some l /\
             DBService.init J w = (Return l, w)) \/
  (exists l,
     l <> [] /\ Sources.readable w /\ Sources.local_source J w = None /\
     Sources.accepts w DBService.STORAGE_KEY (JSON_stringify J l) /\
     DBService.init J w = (Return l, Sources.with_stored w (JSON_stringify J l))) \/
  (Sources.readable w /\ Sources.local_source J w = None /\
   ((Sources.accepts w DBService.STORAGE_KEY (JSON_stringify J DEFAULT_CHANNELS) /\
     DBService.init J w =
     (Return DEFAULT_CHANNELS,
      Sources.with_stored w (JSON_stringify J DEFAULT_CHANNELS))) \/
    (~ Sources.accepts w DBService.STORAGE_KEY
         (JSON_stringify J DEFAULT_CHANNELS) /\
     DBService.init J w = (Return DEFAULT_CHANNELS, w)))).
Proof.
  destruct (denied (localStorage w)) eqn:Hd.
  - left. split; [reflexivity | now apply init_denied].
  - right. destruct (Sources.local_source J w) as [l|] eqn:Hl.
    + left. exists l. split; [reflexivity | now apply init_local].
    + right. rewrite (init_skips_local J w Hd Hl).
      destruct (from_json_file_cases w) as [->|(l & Hne & Hrem & Hacc & ->)].
      * right. split; [exact Hd|]. split; [reflexivity|].
        destruct (setItem_cases w DBService.STORAGE_KEY
                    (JSON_stringify J DEFAULT_CHANNELS)) as [[e He]|[Hacc He]];
          rewrite He.
        -- right. split; [|reflexivity].
           intros Hacc. rewrite (setItem_accepted _ _ _ Hacc) in He.
           discriminate.
        -- left. split; [exact Hacc | reflexivity].
      * left. exists l. auto.
Qed.

End StoreFacts.

Lemma init_returns_nonempty_aux (J : JsonCodec) (w : World) :
  exists c cs w', DBService.init J w = (Return (c :: cs), w').
Proof.
  assert (H : exists l w', DBService.init J w = (Return l, w') /\ l <> []).
  { destruct (init_cases J w)
      as [[_ ->]|[(l & Hl & ->)|[(l & Hne & _ & _ & _ & ->)|(_ & _ & [[_ ->]|[_ ->]])]]];
      eauto using default_channels_nonempty, local_source_nonempty. }
  destruct H as ([|c cs] & w' & Hrun & Hne); [contradiction|]. eauto.
Qed.

(** X1.  [init] never throws and never returns an empty collection,
    whatever local storage holds and whatever the network answers. *)
Theorem init_returns_nonempty (J : JsonCodec) (w : World) :
  exists c cs w', DBService.init J w = (Return (c :: cs), w').
Proof.
  destruct (init_cases J w)
    as [[_ H]|[(l & Hl & H)|[(l & Hne & _ & _ & _ & H)|(_ & _ & [[_ H]|[_ H]])]]];
    rewrite H.
  - pose proof default_channels_nonempty.
    destruct DEFAULT_CHANNELS; [contradiction | eauto].
  - apply local_source_nonempty in Hl. destruct l; [contradiction | eauto].
  - destruct l; [contradiction | eauto].
  - pose proof default_channels_nonempty.
    destruct DEFAULT_CHANNELS; [contradiction | eauto].
  - pose proof default_channels_nonempty.
    destruct DEFAULT_CHANNELS; [contradiction | eauto].
Qed.

(** X2.  The first run seeds the store.  When nothing usable is stored,
    [init] returns the fetched or the built-in list; if the store takes it
    and the codec reads it back, every later [init] returns that same list
    from storage, whatever the network then answers. *)
Theorem init_seeds_store
  (J : JsonCodec) (w w' : World) (cs : list Channel)
  (later : string -> FetchOutcome) :
  Sources.readable w ->
  Sources.local_source J w = None ->
  DBService.init J w = (Return cs, w') ->
  Sources.accepts w DBService.STORAGE_KEY (JSON_stringify J cs) ->
  Sources.reads_back J cs ->
  DBService.init J (mkWorld (localStorage w') later)
  = (Return cs, mkWorld (localStorage w') later).
Proof.
  intros Hr Hl Hinit Hacc [Hparse Htext].
  assert (Hw' : w' = Sources.with_stored w (JSON_stringify J cs) /\ cs <> []).
  { destruct (init_cases J w)
      as [[Hd _]|[(l & Hl' & _)|[(l & Hne & _ & _ & _ & H)|(_ & _ & [[_ H]|[Hno H]])]]];
      unfold Sources.readable in Hr; try congruence.
    - rewrite H in Hinit. injection Hinit as <- <-. auto.
    - rewrite H in Hinit. injection Hinit as <- <-.
      auto using default_channels_nonempty. }
  destruct Hw' as [-> Hne].
  apply init_local. unfold Sources.local_source, Sources.collection_of. simpl.
  rewrite Hr, lookup_insert_eq.
  apply truthy_nonempty in Htext. rewrite Htext, Hparse.
  destruct cs; [contradiction | reflexivity].
Qed.

Lemma init_seeds_store_witness :
  let w := mkWorld (Reference.roomy ∅)
             (Reference.serving (Reference.stringify [Reference.bunny])) in
  let w' := Sources.with_stored w (Reference.stringify [Reference.bunny]) in
  DBService.init Reference.codec (mkWorld (localStorage w') Reference.offline)
  = (Return [Reference.bunny], mkWorld (localStorage w') Reference.offline).
Proof.
  intros w w'.
  refine (init_seeds_store Reference.codec w w' [Reference.bunny]
            Reference.offline eq_refl _ _ _ _).
  - vm_compute. reflexivity.
  - vm_compute. reflexivity.
  - split; [reflexivity | vm_compute; discriminate].
  - split; [vm_compute; reflexivity | vm_compute; discriminate].
Defined.

(** X3.  [updateChannel] rewrites the stored collection with the given
    channel in place of every channel that has its id: when the store holds
    a collection, takes the new text and the codec reads it back, the next
    [init] returns the collection so updated. *)
Theorem updateChannel_replaces
  (J : JsonCodec) (channel : Channel) (w : World) (cs : list Channel) :
  let updated :=
    map (fun c => if String.eqb (id c) (id channel) then channel else c) cs in
  Sources.local_source J w = Some cs ->
  Sources.accepts w DBService.STORAGE_KEY (JSON_stringify J updated) ->
  Sources.reads_back J updated ->
  exists w',
    DBService.updateChannel J channel w = (Return tt, w') /\
    DBService.init J w' = (Return updated, w').
Proof.
  intros updated Hl Hacc [Hparse Htext].
  unfold DBService.updateChannel, bind. rewrite (init_local J w cs Hl).
  destruct (saveAllChannels_stores J updated w Hacc) as (w' & Hsave & Hd & Hget).
  exists w'. split; [exact Hsave|].
  apply init_local. unfold Sources.local_source, Sources.collection_of.
  rewrite Hd, Hget.
  apply truthy_nonempty in Htext. rewrite Htext, Hparse.
  apply (local_source_nonempty J) in Hl.
  subst updated. destruct cs; [contradiction | reflexivity].
Qed.

Lemma updateChannel_replaces_witness :
  let stored := {[ DBService.STORAGE_KEY := Reference.stringify DEFAULT_CHANNELS ]} in
  let w := mkWorld (Reference.roomy stored) Reference.offline in
  let channel := with_rating (nth 2 DEFAULT_CHANNELS Reference.bunny) 5 in
  exists w',
    DBService.updateChannel Reference.codec channel w = (Return tt, w') /\
    DBService.init Reference.codec w' =
    (Return (map (fun c => if String.eqb (id c) "cine1" then channel else c)
                 DEFAULT_CHANNELS), w').
Proof.
  intros stored w channel.
  refine (updateChannel_replaces Reference.codec channel w DEFAULT_CHANNELS
            _ _ _).
  - vm_compute. reflexivity.
  - split; [reflexivity | vm_compute; discriminate].
  - split; [vm_compute; reflexivity | vm_compute; discriminate].
Defined.

(** ** More about the auth gate *)

Section KeysApart.
Variable J : JsonCodec.

Lemma isAuthenticated_same (w1 w2 : World) :
  denied (localStorage w1) = denied (localStorage w2) ->
  items (localStorage w1) !! AuthService.AUTH_KEY
  = items (localStorage w2) !! AuthService.AUTH_KEY ->
  fst (AuthService.isAuthenticated w1) = fst (AuthService.isAuthenticated w2).
Proof.
  intros Hd Hi. unfold AuthService.isAuthenticated, bind, getItem.
  rewrite Hd, Hi. now destruct (denied (localStorage w2)).
Qed.

Lemma local_source_same (w1 w2 : World) :
  denied (localStorage w1) = denied (localStorage w2) ->
  items (localStorage w1) !! DBService.STORAGE_KEY
  = items (localStorage w2) !! DBService.STORAGE_KEY ->
  Sources.local_source J w1 = Sources.local_source J w2.
Proof. intros Hd Hi. unfold Sources.local_source. now rewrite Hd, Hi. Qed.

Lemma keys_differ : AuthService.AUTH_KEY <> DBService.STORAGE_KEY.
Proof. discriminate. Qed.

End KeysApart.

(** X4.  When local storage may be accessed, [logout] leaves the user not
    authenticated, whatever was stored before (the flag, another value or
    nothing), and logging out again changes nothing. *)
Theorem logout_clears (w : World) :
  Sources.readable w ->
  exists w',
    AuthService.logout w = (Return tt, w') /\
    AuthService.isAuthenticated w' = (Return false, w') /\
    AuthService.logout w' = (Return tt, w').
Proof.
  intros Hr. unfold Sources.readable in Hr.
  unfold AuthService.logout, removeItem. rewrite Hr.
  eexists. split; [reflexivity|]. simpl. rewrite Hr. split.
  - unfold AuthService.isAuthenticated, bind, getItem. simpl.
    now rewrite Hr, lookup_delete_eq.
  - unfold set_localStorage, set_items. simpl. do 3 f_equal.
    apply delete_id. apply lookup_delete_eq.
Qed.

Lemma logout_clears_witness :
  let w := snd (AuthService.login "admin"
                  (mkWorld (Reference.roomy ∅) Reference.offline)) in
  returned (AuthService.isAuthenticated w) = Some true /\
  exists w',
    AuthService.logout w = (Return tt, w') /\
    AuthService.isAuthenticated w' = (Return false, w') /\
    AuthService.logout w' = (Return tt, w').
Proof.
  intros w. split; [vm_compute; reflexivity|].
  exact (logout_clears w eq_refl).
Defined.

(** X5.  The channel store and the auth gate do not disturb each other:
    saving or loading channels never changes whether the user is
    authenticated, and logging in or out never changes the stored
    collection. *)
Theorem store_and_gate_apart
  (J : JsonCodec) (cs : list Channel) (password : string) (w : World) :
  fst (AuthService.isAuthenticated (snd (DBService.saveAllChannels J cs w)))
  = fst (AuthService.isAuthenticated w) /\
  fst (AuthService.isAuthenticated (snd (DBService.init J w)))
  = fst (AuthService.isAuthenticated w) /\
  Sources.local_source J (snd (AuthService.login password w))
  = Sources.local_source J w /\
  Sources.local_source J (snd (AuthService.logout w))
  = Sources.local_source J w.
Proof.
  pose proof keys_differ as Hk.
  destruct (saveAllChannels_writes_only J cs w) as (_ & D1 & _ & I1).
  destruct (init_writes_only J w) as (_ & D2 & _ & I2).
  destruct (login_writes_only password w) as (_ & D3 & _ & I3).
  destruct (logout_writes_only w) as (_ & D4 & _ & I4).
  repeat split.
  - apply isAuthenticated_same; auto.
  - apply isAuthenticated_same; auto.
  - apply local_source_same; auto.
  - apply local_source_same; auto.
Qed.

(** ** More about the application shell *)

Section RateFacts.
Variable J : JsonCodec.

Lemma map_id_rated (cur : Channel) (r : Q) (cs : list Channel) :
  map id (map (fun c => if String.eqb (id c) (id cur)
                        then with_rating c r else c) cs)
  = map id cs.
Proof.
  rewrite map_map. apply map_ext. intros c.
  now destruct (String.eqb (id c) (id cur)).
Qed.

Lemma find_by_id_map_id (i : string) (cs cs' : list Channel) :
  map id cs' = map id cs ->
  (App.find_by_id i cs' = None <-> App.find_by_id i cs = None).
Proof.
  intros Hids. rewrite !find_by_id_None.
  assert (Hin : forall l, (forall c, In c l -> id c <> i) <->
                          ~ In i (map id l)).
  { intros l. rewrite in_map_iff. split.
    - intros H (c & Hc & Hin). exact (H c Hin Hc).
    - intros H c Hin Hc. apply H. eauto. }
  rewrite !Hin. now rewrite Hids.
Qed.

Lemma currentChannel_In (st : App.State) (cur : Channel) :
  App.currentChannel st = Some cur -> In cur (App.channels st).
Proof.
  unfold App.currentChannel, App.or_else.
  destruct (App.find_by_id _ _) as [c|] eqn:Hfind.
  - intros [= <-]. now apply find_by_id_In in Hfind.
  - destruct (App.channels st); simpl; [discriminate|].
    intros [= <-]. now left.
Qed.

End RateFacts.

(** X6.  Rating never throws and never adds, removes, reorders or renames
    a channel: it sets the rating of every channel that has the id of the
    current channel and leaves the others as they are.  The current channel
    is the active one, or the first one when the active id refers to none;
    afterwards it is the active one.  With no channel at all, rating does
    nothing. *)
Theorem handleRateChannel_rates_current
  (J : JsonCodec) (r : Q) (st : App.State) (w : World) :
  exists st' w',
    App.handleRateChannel J r st w = (Return st', w') /\
    map id (App.channels st') = map id (App.channels st) /\
    (App.channels st = [] -> st' = st /\ w' = w) /\
    (forall cur,
       App.currentChannel st = Some cur ->
       App.currentChannelId st' = id cur /\
       Forall2 (fun c c' =>
                  (id c = id cur -> c' = with_rating c r) /\
                  (id c <> id cur -> c' = c))
               (App.channels st) (App.channels st')).
Proof.
  unfold App.handleRateChannel.
  destruct (App.currentChannel st) as [cur|] eqn:Hcur.
  - set (updated := map _ (App.channels st)).
    destruct (handleSaveChannels_result J updated st w) as [w' ->].
    eexists _, w'. split; [reflexivity|].
    assert (Hids : map id updated = map id (App.channels st))
      by apply map_id_rated.
    assert (Hch : App.channels
                (match App.find_by_id (App.currentChannelId st) updated, updated with
                 | None, c :: _ =>
                     App.setCurrentChannelId (id c) (App.setChannels updated st)
                 | _, _ => App.setChannels updated st
                 end) = updated).
    { destruct (App.find_by_id _ updated); [reflexivity|].
      now destruct updated. }
    rewrite Hch. split; [exact Hids|]. split.
    + intros Hempty. apply currentChannel_In in Hcur.
      rewrite Hempty in Hcur. contradiction.
    + intros cur' [= <-]. split.
      * unfold App.currentChannel, App.or_else in Hcur.
        destruct (App.find_by_id (App.currentChannelId st) (App.channels st))
          as [c0|] eqn:Hfind.
        -- injection Hcur as ->.
           destruct (App.find_by_id (App.currentChannelId st) updated) eqn:Hf'.
           ++ simpl. now apply find_by_id_In in Hfind.
           ++ apply (find_by_id_map_id _ _ _ Hids) in Hf'. congruence.
        -- apply (find_by_id_map_id _ _ _ Hids) in Hfind. rewrite Hfind.
           destruct (App.channels st) as [|c cs] eqn:Hcs; [discriminate|].
           simpl in Hcur. injection Hcur as ->.
           subst updated. simpl.
           now destruct (String.eqb (id cur) (id cur)).
      * subst updated. apply Forall2_map_self. intros c.
        destruct (String.eqb_spec (id c) (id cur)); split; congruence.
  - exists st, w. split; [reflexivity|]. split; [reflexivity|].
    split; [auto | discriminate].
Qed.

(** X7.  The mount effect never throws; it always ends the loading state
    and leaves a collection that is not empty, with its first channel
    active. *)
Theorem initApp_loads_first_channel
  (J : JsonCodec) (st : App.State) (w : World) :
  exists st' w' c cs,
    App.initApp J st w = (Return st', w') /\
    App.isLoading st' = false /\
    App.channels st' = c :: cs /\
    App.currentChannelId st' = id c.
Proof.
  unfold App.initApp, bind, try_catch.
  destruct (init_returns_nonempty_aux J w) as (c & cs & w' & ->).
  eexists _, w', c, cs. repeat split.
Qed.

(** ** The way into the admin panel *)

Section Gate.
Variable J : JsonCodec.

Lemma settle_world {A} (m : M A) (a : A) (w : World) :
  snd (settle m a w) = snd (m w).
Proof. unfold settle. now destruct (m w) as [[a'|e] w']. Qed.

Lemma writes_only_keeps_authenticated {A} (key : string) (m : M A) (w : World) :
  key <> AuthService.AUTH_KEY ->
  writes_only key m ->
  authenticated w -> authenticated (snd (m w)).
Proof.
  intros Hk Hm [Hd Hi]. destruct (Hm w) as (_ & D & _ & I).
  split; [congruence|]. rewrite I; auto.
Qed.

Lemma initApp_writes_only (st : App.State) :
  writes_only DBService.STORAGE_KEY (App.initApp J st).
Proof.
  pose proof (init_writes_only J). unfold App.initApp. frame.
Qed.

Lemma handleRateChannel_writes_only (r : Q) (st : App.State) :
  writes_only DBService.STORAGE_KEY (App.handleRateChannel J r st).
Proof.
  unfold App.handleRateChannel.
  destruct (App.currentChannel st);
    [apply handleSaveChannels_writes_only | apply writes_only_ret].
Qed.

Lemma handleSaveChannels_isAdminOpen
  (updated : list Channel) (st st' : App.State) (w w' : World) :
  App.handleSaveChannels J updated st w = (Return st', w') ->
  App.isAdminOpen st' = App.isAdminOpen st /\
  App.isLoginOpen st' = App.isLoginOpen st.
Proof.
  destruct (handleSaveChannels_result J updated st w) as [w1 ->].
  intros [= <- _].
  destruct (App.find_by_id _ updated); [now split|].
  destruct updated; now split.
Qed.

Lemma app_step_isAdminOpen (st : App.State) (w : World) (e : AppEvent) :
  App.isAdminOpen (fst (app_step J (st, w) e)) = App.isAdminOpen st.
Proof.
  destruct e as [|innerWidth i|updated|channelId|r]; simpl.
  - unfold settle, App.initApp, bind, try_catch.
    destruct (init_returns_nonempty_aux J w) as (c & cs & w' & ->).
    reflexivity.
  - unfold App.handleChannelChange.
    destruct (App.find_target _ _); [|reflexivity].
    now destruct (innerWidth <? 1024)%Z.
  - destruct (settle_cases (App.handleSaveChannels J updated st) st w)
      as [(st' & w' & Hrun & ->)|[w' ->]]; [|reflexivity].
    now apply handleSaveChannels_isAdminOpen in Hrun.
  - unfold App.handleToggleFavorite.
    match goal with |- context [settle ?m st w] =>
      destruct (settle_cases m st w)
        as [(st' & w' & Hrun & ->)|[w' ->]] end; [|reflexivity].
    now apply handleSaveChannels_isAdminOpen in Hrun.
  - unfold App.handleRateChannel.
    destruct (App.currentChannel st); [|reflexivity].
    match goal with |- context [settle ?m st w] =>
      destruct (settle_cases m st w)
        as [(st' & w' & Hrun & ->)|[w' ->]] end; [|reflexivity].
    now apply handleSaveChannels_isAdminOpen in Hrun.
Qed.

Lemma app_step_keeps_authenticated (st : App.State) (w : World) (e : AppEvent) :
  authenticated w -> authenticated (snd (app_step J (st, w) e)).
Proof.
  pose proof keys_differ as Hk.
  assert (Hk' : DBService.STORAGE_KEY <> AuthService.AUTH_KEY) by congruence.
  intros Hw. destruct e as [|innerWidth i|updated|channelId|r]; simpl;
    rewrite ?settle_world; try exact Hw;
    eapply writes_only_keeps_authenticated; eauto.
  - apply initApp_writes_only.
  - apply handleSaveChannels_writes_only.
  - apply handleSaveChannels_writes_only.
  - apply handleRateChannel_writes_only.
Qed.

Lemma isAuthenticated_true (w w' : World) :
  AuthService.isAuthenticated w = (Return true, w') ->
  w' = w /\ authenticated w.
Proof.
  unfold AuthService.isAuthenticated, bind, getItem, authenticated.
  destruct (denied (localStorage w)) eqn:Hd; [discriminate|].
  destruct (_ !! _) as [s|]; [|discriminate].
  intros [= Hs <-]. apply String.eqb_eq in Hs. subst. auto.
Qed.

Lemma login_true_authenticated (password : string) (w w' : World) :
  AuthService.login password w = (Return true, w') -> authenticated w'.
Proof.
  unfold AuthService.login.
  destruct (String.eqb password "admin"); [|discriminate].
  unfold bind.
  destruct (setItem_cases w AuthService.AUTH_KEY "true")
    as [[e ->]|[[Hd _] ->]]; [discriminate|].
  intros [= <-]. split; [exact Hd | apply lookup_insert_eq].
Qed.

Lemma login_not_true_same_world (password : string) (w w' : World) r :
  AuthService.login password w = (r, w') -> r <> Return true -> w' = w.
Proof.
  unfold AuthService.login.
  destruct (String.eqb password "admin"); [|now intros [= _ <-]].
  unfold bind.
  destruct (setItem_cases w AuthService.AUTH_KEY "true")
    as [[e ->]|[_ ->]].
  - now intros [= _ <-].
  - intros [= <- _] H. now elim H.
Qed.

Lemma gate_step_keeps_ok (sw : App.State * World) (e : GateEvent) :
  gate_ok sw -> gate_ok (gate_step J sw e).
Proof.
  destruct sw as [app w]. unfold gate_ok. simpl. intros Hok.
  destruct e as [|password| | | |draft|e]; simpl.
  - unfold settle, App.handleOpenAdmin, bind.
    destruct (AuthService.isAuthenticated w) as [[[|]|err] w1] eqn:Hauth; simpl.
    + apply isAuthenticated_true in Hauth as [-> Hw]. auto.
    + assert (w1 = w) as ->; [|exact Hok].
      destruct (isAuthenticated_reads_only AuthService.AUTH_KEY w)
        as (_ & _ & _ & _).
      revert Hauth. unfold AuthService.isAuthenticated, bind, getItem.
      destruct (denied _); [discriminate | now intros [= _ <-]].
    + assert (w1 = w) as ->; [|exact Hok].
      revert Hauth. unfold AuthService.isAuthenticated, bind, getItem.
      destruct (denied _); [now intros [= _ <-] | discriminate].
  - destruct (App.isLoginOpen app); [|exact Hok].
    unfold LoginModal.handleSubmit. simpl.
    destruct (negb (JsString.truthy password)); [exact Hok|].
    destruct (AuthService.login password w) as [[[|]|err] w1] eqn:Hlogin; simpl.
    + intros _. eapply login_true_authenticated; eauto.
    + apply login_not_true_same_world in Hlogin as ->; [exact Hok|discriminate].
    + apply login_not_true_same_world in Hlogin as ->; [exact Hok|discriminate].
  - exact Hok.
  - discriminate.
  - destruct (App.isAdminOpen app) eqn:Hopen; [|simpl; congruence].
    unfold settle, AdminPanel.handleLogout, bind, AuthService.logout, removeItem.
    destruct (denied (localStorage w)) eqn:Hd; simpl.
    + intros _. now apply Hok.
    + discriminate.
  - destruct (App.isAdminOpen app) eqn:Hopen; [|simpl; congruence].
    unfold AdminPanel.handleGlobalSave, settle, bind.
    destruct (handleSaveChannels_result J
                (AdminPanel.localChannels (AdminPanel.initial draft)) app w)
      as [w1 ->].
    simpl. intros H. exfalso. revert H.
    destruct (App.find_by_id (App.currentChannelId app) draft);
      [discriminate|].
    destruct draft; discriminate.
  - intros Hopen. apply (app_step_keeps_authenticated app w e).
    apply Hok. rewrite <- (app_step_isAdminOpen app w e). exact Hopen.
Qed.

End Gate.

(** X9.  The admin panel is open only while the persisted flag says the
    user is authenticated: from the initial state, whatever is clicked,
    typed, published or loaded, in whatever order, if the panel is open
    then local storage holds the authenticated flag. *)
Theorem admin_needs_authentication
  (J : JsonCodec) (innerWidth : Z) (w : World) (events : list GateEvent) :
  let final := fold_left (gate_step J) events (App.initial innerWidth, w) in
  App.isAdminOpen (fst final) = true -> authenticated (snd final).
Proof.
  cbv zeta. change (gate_ok (fold_left (gate_step J) events
                               (App.initial innerWidth, w))).
  assert (Hinit : gate_ok (App.initial innerWidth, w)) by discriminate.
  revert Hinit. generalize (App.initial innerWidth, w).
  induction events as [|e events IH]; intros sw Hsw; simpl; [exact Hsw|].
  apply IH. now apply gate_step_keeps_ok.
Qed.

Lemma admin_needs_authentication_witness :
  let w := mkWorld (Reference.roomy ∅) Reference.offline in
  let events := [Shell Mount; OpenAdmin; SubmitPassword "guest";
                 SubmitPassword "admin"] in
  let final := fold_left (gate_step Reference.codec) events
                 (App.initial 1280, w) in
  App.isAdminOpen (fst final) = true /\ authenticated (snd final).
Proof.
  intros w events final.
  assert (Hopen : App.isAdminOpen (fst final) = true)
    by (vm_compute; reflexivity).
  split; [exact Hopen|].
  exact (admin_needs_authentication Reference.codec 1280 w events Hopen).
Defined.

(** ** More about the login form *)

(** X10.  After a refused password the form shows the error and has
    emptied the field, so that submitting again at once is ignored (and
    storage is not touched); typing anything clears the error. *)
Theorem refused_then_resubmit (st : LoginModal.State) (w : World) :
  LoginModal.password st <> "" ->
  LoginModal.password st <> "admin" ->
  exists st1,
    LoginModal.handleSubmit st w = (st1, LoginModal.Refused, w) /\
    LoginModal.error_indicator_shown st1 = true /\
    LoginModal.password st1 = "" /\
    LoginModal.handleSubmit st1 w = (st1, LoginModal.Ignored, w) /\
    forall typed,
      LoginModal.error_indicator_shown (LoginModal.onChange typed st1) = false.
Proof.
  intros Hne Hwrong. unfold LoginModal.handleSubmit.
  apply truthy_nonempty in Hne. rewrite Hne. simpl.
  rewrite (login_wrong_password _ _ Hwrong).
  eexists. split; [reflexivity|]. repeat split.
Qed.

Lemma refused_then_resubmit_witness :
  let w := mkWorld (Reference.roomy ∅) Reference.offline in
  let st := LoginModal.onChange "letmein" LoginModal.initial in
  exists st1,
    LoginModal.handleSubmit st w = (st1, LoginModal.Refused, w) /\
    LoginModal.error_indicator_shown st1 = true /\
    LoginModal.password st1 = "" /\
    LoginModal.handleSubmit st1 w = (st1, LoginModal.Ignored, w) /\
    forall typed,
      LoginModal.error_indicator_shown (LoginModal.onChange typed st1) = false.
Proof.
  intros w st.
  refine (refused_then_resubmit st w _ _); discriminate.
Defined.

(** ** The admin panel *)

Section AdminFacts.

Lemma find_by_id_filtered_out (i : string) (cs : list Channel) :
  App.find_by_id i
    (List.filter (fun c => negb (String.eqb (id c) i)) cs) = None.
Proof.
  apply find_by_id_None. intros c Hc.
  apply filter_In in Hc as [_ Hc].
  apply negb_true_iff in Hc. now apply String.eqb_neq.
Qed.

Lemma same_id_same_channel (l : list Channel) (x c : Channel) :
  List.NoDup (map id l) -> In x l -> In c l -> id x = id c -> x = c.
Proof.
  induction l as [|a l IH]; simpl; [contradiction|].
  intros Hnd [->|Hx] [->|Hc] Hid; auto.
  - apply List.NoDup_cons_iff in Hnd as [Hnot _].
    elim Hnot. rewrite Hid. now apply in_map.
  - apply List.NoDup_cons_iff in Hnd as [Hnot _].
    elim Hnot. rewrite <- Hid. now apply in_map.
  - apply List.NoDup_cons_iff in Hnd as [_ Hnd]. auto.
Qed.

Lemma append_not_self (s t : string) : s +:+ t = s -> t = "".
Proof.
  induction s as [|a s IH]; simpl_append; [auto|].
  intros [= H]. auto.
Qed.



End AdminFacts.

(** X11.  Deleting the active channel in the admin panel and publishing:
    the shell gets exactly the other channels, in their order, the deleted
    id refers to no channel any more, the first remaining channel becomes
    active, and the panel is closed.  Nothing is thrown. *)
Theorem delete_active_and_publish
  (J : JsonCodec) (app : App.State) (w : World) :
  let active := App.currentChannelId app in
  let admin := AdminPanel.handleDelete true active
                 (AdminPanel.initial (App.channels app)) in
  let remaining := List.filter (fun c => negb (String.eqb (id c) active))
                               (App.channels app) in
  exists app' w',
    AdminPanel.handleGlobalSave J admin app w = (Return app', w') /\
    App.channels app' = remaining /\
    App.find_by_id active (App.channels app') = None /\
    App.isAdminOpen app' = false /\
    forall c rest, remaining = c :: rest -> App.currentChannelId app' = id c.
Proof.
  intros active admin remaining.
  unfold AdminPanel.handleGlobalSave, bind.
  assert (Hdraft : AdminPanel.localChannels admin = remaining) by reflexivity.
  rewrite Hdraft.
  destruct (handleSaveChannels_result J remaining app w) as [w' ->].
  eexists _, w'. split; [reflexivity|].
  fold active. subst remaining. rewrite find_by_id_filtered_out.
  pose proof (find_by_id_filtered_out active (App.channels app)) as Hgone.
  destruct (List.filter _ (App.channels app)) as [|c rest].
  - repeat split. discriminate.
  - split; [reflexivity|]. split; [exact Hgone|]. split; [reflexivity|].
    now intros c' rest' [= <- <-].
Qed.

(** X12.  Opening a channel of the draft in the form and saving it
    untouched leaves the draft as it was, provided the ids of the draft are
    pairwise distinct and the channel's id is not the word "NEW". *)
Theorem edit_untouched_keeps_draft (c : Channel) (st : AdminPanel.State) :
  In c (AdminPanel.localChannels st) ->
  List.NoDup (map id (AdminPanel.localChannels st)) ->
  id c <> "NEW" ->
  AdminPanel.localChannels (AdminPanel.saveEdit (AdminPanel.startEdit c st))
  = AdminPanel.localChannels st.
Proof.
  intros Hin Hnd Hnew. unfold AdminPanel.saveEdit, AdminPanel.startEdit. simpl.
  destruct (negb (JsString.truthy (name c)) || negb (JsString.truthy (id c)));
    [reflexivity|].
  apply String.eqb_neq in Hnew. rewrite Hnew. simpl.
  rewrite <- (map_id (AdminPanel.localChannels st)) at 2.
  apply map_ext_in. intros x Hx.
  destruct (String.eqb_spec (id x) (id c)) as [Heq|]; [|reflexivity].
  symmetry. eapply same_id_same_channel; eauto.
Qed.

Lemma edit_untouched_keeps_draft_witness :
  let st := AdminPanel.initial DEFAULT_CHANNELS in
  let c := nth 3 DEFAULT_CHANNELS Reference.bunny in
  AdminPanel.localChannels (AdminPanel.saveEdit (AdminPanel.startEdit c st))
  = DEFAULT_CHANNELS.
Proof.
  intros st c.
  refine (edit_untouched_keeps_draft c st _ _ _).
  - simpl. auto 10.
  - simpl. repeat (constructor; [simpl; intuition discriminate|]). constructor.
  - discriminate.
Defined.

(** X13.  The word "NEW" marks a channel being created, so a channel whose
    id is "NEW" cannot be edited: saving its form, changed or not, appends
    the form to the draft instead of replacing the channel. *)
Theorem edit_of_NEW_appends (c form : Channel) (st : AdminPanel.State) :
  id c = "NEW" ->
  name form <> "" -> id form <> "" ->
  AdminPanel.localChannels
    (AdminPanel.saveEdit
       (AdminPanel.setEditForm form (AdminPanel.startEdit c st)))
  = AdminPanel.localChannels st ++ [form].
Proof.
  intros Hid Hname Hform.
  unfold AdminPanel.saveEdit, AdminPanel.startEdit. simpl.
  apply truthy_nonempty in Hname, Hform. rewrite Hname, Hform, Hid.
  reflexivity.
Qed.

Lemma edit_of_NEW_appends_witness :
  let c := AdminPanel.with_id Reference.bunny "NEW" in
  let st := AdminPanel.initial [c] in
  AdminPanel.localChannels
    (AdminPanel.saveEdit (AdminPanel.setEditForm c (AdminPanel.startEdit c st)))
  = [c; c].
Proof.
  intros c st.
  refine (edit_of_NEW_appends c c st eq_refl _ _); discriminate.
Defined.



(** X15.  Duplicating a channel appends one channel to the draft and
    leaves the rest as it was.  The copy has a new id, never the id of the
    channel it was made from, and opens in the form; the ids of the draft
    stay pairwise distinct whenever the new id was not yet in use. *)
Theorem handleDuplicate_appends_copy
  (draw : N) (c : Channel) (st : AdminPanel.State) :
  let st' := AdminPanel.handleDuplicate draw c st in
  exists copy,
    AdminPanel.localChannels st' = AdminPanel.localChannels st ++ [copy] /\
    id copy <> id c /\
    AdminPanel.with_name (AdminPanel.with_id copy (id c)) (name c) = c /\
    AdminPanel.editingId st' = Some (id copy) /\
    AdminPanel.editForm st' = copy /\
    (List.NoDup (map id (AdminPanel.localChannels st)) ->
     ~ In (id copy) (map id (AdminPanel.localChannels st)) ->
     List.NoDup (map id (AdminPanel.localChannels st'))).
Proof.
  intros st'. subst st'. unfold AdminPanel.handleDuplicate. simpl.
  eexists. split; [reflexivity|]. split; [|split; [|split; [|split]]].
  - simpl. intros H. apply append_not_self in H. discriminate.
  - now destruct c.
  - reflexivity.
  - reflexivity.
  - simpl. intros Hnd Hfresh. rewrite map_app. simpl.
    apply NoDup_Add with (a := id c +:+ "_copy_" +:+ AdminPanel.decimal draw)
                         (l := map id (AdminPanel.localChannels st)).
    + rewrite <- (app_nil_r (map id (AdminPanel.localChannels st))) at 1.
      apply Add_app.
    + split; assumption.
Qed.

Lemma handleDuplicate_appends_copy_witness :
  let st := AdminPanel.initial DEFAULT_CHANNELS in
  let c := nth 0 DEFAULT_CHANNELS Reference.bunny in
  let st' := AdminPanel.handleDuplicate 42 c st in
  map id (AdminPanel.localChannels st')
  = ["live1"; "nature1"; "cine1"; "toon1"; "sport1"; "live1_copy_42"] /\
  List.NoDup (map id (AdminPanel.localChannels st')).
Proof.
  intros st c st'. split; [reflexivity|].
  destruct (handleDuplicate_appends_copy 42 c st)
    as (copy & Hlist & _ & _ & Hid & _ & Hdistinct).
  injection Hid as Hid. rewrite <- Hid in Hdistinct.
  apply Hdistinct.
  - simpl. repeat (constructor; [simpl; intuition discriminate|]). constructor.
  - simpl. intuition discriminate.
Defined.

(** ** The channel guide *)

#[global] Instance precedes_total : Total ChannelList.precedes.
Proof. intros x y. apply String.leb_total. Qed.

Section GuideFacts.





End GuideFacts.


Example categories_of_defaults :
  ChannelList.categories DEFAULT_CHANNELS =
  ["Tous"; "Cinéma"; "Documentaire"; "Enfants"; "Information"; "Sport"].
Proof. vm_compute. reflexivity. Qed.



Section GroupFacts.

(** What [groups] holds under a category once [l] has been added to [g]. *)
Lemma fold_group_step_ok (l : list Channel) :
  forall g : gmap string (list Channel),
    Forall (fun c => ChannelList.inherited (category c) = false) l ->
    exists g',
      fold_left ChannelList.group_step l (Return g) = Return g' /\
      forall cat,
        g' !! cat =
        match g !! cat,
              List.filter (fun c => String.eqb (category c) cat) l with
        | Some l0, more => Some (l0 ++ more)
        | None, [] => None
        | None, more => Some more
        end.
Proof.
  induction l as [|c l IH]; intros g Hl.
  - exists g. split; [reflexivity|]. intros cat. simpl.
    destruct (g !! cat); [now rewrite app_nil_r | reflexivity].
  - apply List.Forall_cons_iff in Hl as [Hc Hl]. simpl.
    destruct (g !! category c) as [l0|] eqn:Hg; [|rewrite Hc].
    + destruct (IH (<[category c := l0 ++ [c]]> g) Hl) as (g' & -> & Hg').
      exists g'. split; [reflexivity|]. intros cat. rewrite Hg'.
      destruct (String.eqb_spec (category c) cat) as [<-|Hne].
      * rewrite lookup_insert_eq, Hg. now rewrite <- app_assoc.
      * now rewrite lookup_insert_ne.
    + destruct (IH (<[category c := [c]]> g) Hl) as (g' & -> & Hg').
      exists g'. split; [reflexivity|]. intros cat. rewrite Hg'.
      destruct (String.eqb_spec (category c) cat) as [<-|Hne].
      * rewrite lookup_insert_eq, Hg. reflexivity.
      * now rewrite lookup_insert_ne.
Qed.

Lemma fold_group_step_thrown (l : list Channel) (e : Error) :
  fold_left ChannelList.group_step l (Throw e) = Throw e.
Proof. induction l; simpl; auto. Qed.

Lemma fold_group_step_fails (l : list Channel) :
  forall g : gmap string (list Channel),
    (forall cat, ChannelList.inherited cat = true -> g !! cat = None) ->
    Exists (fun c => ChannelList.inherited (category c) = true) l ->
    fold_left ChannelList.group_step l (Return g) = Throw TypeError.
Proof.
  induction l as [|c l IH]; intros g Hg Hex; [inversion Hex|]. simpl.
  destruct (ChannelList.inherited (category c)) eqn:Hc.
  - rewrite (Hg _ Hc). apply fold_group_step_thrown.
  - apply List.Exists_cons in Hex as [Hex|Hex]; [congruence|].
    destruct (g !! category c) as [l0|]; apply IH; auto;
      intros cat Hcat;
      (rewrite lookup_insert_ne; [auto | congruence]).
Qed.

End GroupFacts.

(** X18.  With "Tous" chosen and no search text, the channels that are not
    favourites are grouped by category: under each category the group
    holds exactly the channels of that category, in the order of the
    collection, and a category without such a channel has no group.  This
    holds when no category is the name of a property every object
    inherits ("constructor", "toString", ...); if one is, grouping throws a
    TypeError. *)
Theorem groupedChannels_by_category
  (fuse_search : list Channel -> string -> list Channel)
  (st : ChannelList.State) (channels : list Channel) :
  let others := snd (ChannelList.favorites_others fuse_search st channels) in
  ChannelList.activeCategory st = "Tous" ->
  JsString.truthy (ChannelList.trim (ChannelList.searchQuery st)) = false ->
  (Forall (fun c => ChannelList.inherited (category c) = false) others ->
   exists g,
     ChannelList.groupedChannels fuse_search st channels = Return (Some g) /\
     forall cat,
       g !! cat =
       match List.filter (fun c => String.eqb (category c) cat) others with
       | [] => None
       | group => Some group
       end) /\
  (Exists (fun c => ChannelList.inherited (category c) = true) others ->
   ChannelList.groupedChannels fuse_search st channels = Throw TypeError).
Proof.
  intros others Hall Hblank. unfold ChannelList.groupedChannels.
  rewrite Hall, Hblank. simpl. fold others. split.
  - intros Hok.
    destruct (fold_group_step_ok others ∅ Hok) as (g & -> & Hg).
    exists g. split; [reflexivity|]. intros cat.
    rewrite Hg, lookup_empty. reflexivity.
  - intros Hbad. rewrite (fold_group_step_fails others ∅); auto.
Qed.

Lemma groupedChannels_by_category_witness :
  let search := fun (l : list Channel) (_ : string) => l in
  let st := ChannelList.initial in
  (exists g,
     ChannelList.groupedChannels search st DEFAULT_CHANNELS = Return (Some g) /\
     option_map (map id) (g !! "Sport") = Some ["sport1"] /\
     g !! "Information" = None) /\
  ChannelList.groupedChannels search st
    [AdminPanel.with_id Reference.bunny "b";
     mkChannel "c" "C" "constructor" "" "" "" "" None None]
  = Throw TypeError.
Proof.
  intros search st. split.
  - destruct (groupedChannels_by_category search st DEFAULT_CHANNELS
                eq_refl eq_refl) as [Hok _].
    destruct Hok as (g & Hrun & Hg); [repeat constructor|].
    exists g. split; [exact Hrun|]. rewrite !Hg. split; reflexivity.
  - destruct (groupedChannels_by_category search st
                [AdminPanel.with_id Reference.bunny "b";
                 mkChannel "c" "C" "constructor" "" "" "" "" None None]
                eq_refl eq_refl) as [_ Hbad].
    apply Hbad. apply Exists_cons_tl. apply Exists_cons_hd. reflexivity.
Defined.

(** ** The player's controls *)

Section ControlFacts.
Import VideoPlayer.

Lemma attemptAutoPlay_mirrors (b : Browser) (p : State) :
  mirrors (attemptAutoPlay b p).
Proof.
  unfold attemptAutoPlay, play, mirrors. simpl.
  destruct (playResult b false); simpl; auto.
  destruct (playResult b true); simpl; auto.
Qed.

Lemma loadChannel_mirrors (b : Browser) (videoUrl : string) (p : State) :
  mirrors p -> mirrors (loadChannel b videoUrl p).
Proof.
  intros [Hm Hv]. unfold loadChannel.
  destruct (isHlsSource videoUrl); [|apply attemptAutoPlay_mirrors].
  unfold mirrors.
  destruct (hlsRef p) eqn:Href, (hlsSupported b), (nativeHls b); simpl;
    rewrite ?Href; simpl; auto.
Qed.

Lemma togglePlay_mirrors (b : Browser) (p : State) :
  mirrors p -> mirrors (PlayerControls.togglePlay b p).
Proof.
  intros [Hm Hv]. unfold PlayerControls.togglePlay, mirrors.
  destruct (isPlaying p); simpl; [auto|].
  destruct (isMuted p && videoMuted p); simpl; auto.
Qed.

Lemma toggleMute_mirrors (p : State) :
  mirrors p -> mirrors (PlayerControls.toggleMute p).
Proof.
  intros [Hm Hv]. unfold PlayerControls.toggleMute, mirrors. simpl.
  destruct (videoMuted p); simpl; auto.
Qed.

Lemma onVolumeChange_mirrors (newVol : Q) (p : State) :
  mirrors p -> mirrors (PlayerControls.onVolumeChange newVol p).
Proof.
  intros [Hm Hv]. unfold PlayerControls.onVolumeChange, mirrors. simpl.
  destruct (negb (Qle_bool newVol 0) && videoMuted p); simpl; auto.
Qed.

Lemma step_mirrors (b : Browser) (st : PlayerControls.State)
  (e : PlayerControls.Event) :
  mirrors (PlayerControls.player st) ->
  mirrors (PlayerControls.player (PlayerControls.step b st e)).
Proof.
  intros Hp. pose proof Hp as [Hm Hv].
  destruct e; simpl;
    try (apply attemptAutoPlay_mirrors);
    try (now apply loadChannel_mirrors);
    try (now apply togglePlay_mirrors);
    try (now apply toggleMute_mirrors);
    try (now apply onVolumeChange_mirrors);
    try (split; simpl; assumption);
    try (split; reflexivity).
  - unfold onHlsError. destruct (fatal data); [|exact Hp].
    destruct (type data); split; simpl; assumption.
  - unfold cleanup. destruct (hlsRef _); split; simpl; assumption.
  - unfold PlayerControls.handleContainerClick.
    destruct (_ <? 300)%Z; simpl.
    + destruct (negb _); exact Hp.
    + destruct (negb (isPlaying _)); simpl; [|exact Hp].
      now apply togglePlay_mirrors.
  - unfold PlayerControls.timerFired.
    destruct (PlayerControls.hideTimer st) as [[|]|]; exact Hp.
Qed.

End ControlFacts.

(** X19.  The mute button and the volume slider never disagree with the
    video element: from the initial state, whatever the user does and
    whatever the media reports, in whatever order, the displayed mute flag
    and volume are those of the element. *)
Theorem controls_mirror_element
  (b : VideoPlayer.Browser) (events : list PlayerControls.Event) :
  mirrors
    (PlayerControls.player
       (fold_left (PlayerControls.step b) events PlayerControls.initial)).
Proof.
  assert (Hinit : mirrors (PlayerControls.player PlayerControls.initial))
    by (split; reflexivity).
  revert Hinit. generalize PlayerControls.initial.
  induction events as [|e events IH]; intros st Hst; simpl; [exact Hst|].
  apply IH. now apply step_mirrors.
Qed.

(** X20.  A click on the player always leaves the controls shown, in every
    state.  A click less than 300 ms after the previous one asks for a seek
    of ten seconds, forward in the right half and backward otherwise, and
    neither plays nor pauses; any other click asks for no seek, and starts
    playback exactly when the player was not playing. *)
Theorem click_behaviour
  (b : VideoPlayer.Browser) (now : Z) (x width : Q)
  (st : PlayerControls.State) :
  let st' := PlayerControls.handleContainerClick b now x width st in
  PlayerControls.showControls st' = true /\
  PlayerControls.lastTap st' = now /\
  ((now - PlayerControls.lastTap st < 300)%Z ->
   VideoPlayer.calls (PlayerControls.player st')
   = VideoPlayer.calls (PlayerControls.player st) /\
   exists delta,
     PlayerControls.seeks st' = PlayerControls.seeks st ++ [delta] /\
     (delta = 10%Z \/ delta = (-10)%Z) /\
     (delta = 10%Z <-> ~ (x <= width / 2)%Q)) /\
  ((300 <= now - PlayerControls.lastTap st)%Z ->
   PlayerControls.seeks st' = PlayerControls.seeks st /\
   (VideoPlayer.isPlaying (PlayerControls.player st) = true ->
    PlayerControls.player st' = PlayerControls.player st) /\
   (VideoPlayer.isPlaying (PlayerControls.player st) = false ->
    exists rest,
      VideoPlayer.calls (PlayerControls.player st')
      = VideoPlayer.calls (PlayerControls.player st) ++
          VideoPlayer.VideoPlay
            (VideoPlayer.videoMuted (PlayerControls.player st)) :: rest)).
Proof.
  intros st'. subst st'. unfold PlayerControls.handleContainerClick.
  split; [reflexivity|]. split; [reflexivity|]. split.
  - intros Hfast. apply Z.ltb_lt in Hfast. rewrite Hfast.
    destruct (Qle_bool x (width / 2)) eqn:Hx; simpl.
    + split; [reflexivity|]. exists (-10)%Z. split; [reflexivity|].
      split; [auto|]. apply Qle_bool_iff in Hx.
      split; [discriminate | intros H; now elim H].
    + split; [reflexivity|]. exists 10%Z. split; [reflexivity|].
      split; [auto|]. split; [|reflexivity].
      intros _ H. apply Qle_bool_iff in H. congruence.
  - intros Hslow. apply Z.ltb_ge in Hslow. rewrite Hslow.
    destruct (VideoPlayer.isPlaying (PlayerControls.player st)) eqn:Hplaying;
      simpl.
    + split; [reflexivity|]. split; [reflexivity | discriminate].
    + split; [reflexivity|]. split; [discriminate|]. intros _.
      unfold PlayerControls.togglePlay, VideoPlayer.play. rewrite Hplaying.
      simpl.
      destruct (VideoPlayer.isMuted _ && VideoPlayer.videoMuted _); simpl;
        exists []; reflexivity.
Qed.

Lemma click_behaviour_witness :
  let b := Reference.permissive in
  let playing := PlayerControls.step b
                   (PlayerControls.step b PlayerControls.initial
                      (PlayerControls.Load (videoUrl Reference.bunny)))
                   PlayerControls.Played in
  let once := PlayerControls.handleContainerClick b 1000 10 100 playing in
  let twice := PlayerControls.handleContainerClick b 1200 90 100 once in
  PlayerControls.seeks once = [] /\
  PlayerControls.seeks twice = [10%Z] /\
  PlayerControls.showControls twice = true.
Proof.
  intros b playing once twice.
  destruct (click_behaviour b 1000 10 100 playing) as (_ & _ & _ & Hslow).
  destruct (Hslow ltac:(vm_compute; discriminate)) as (Hnone & _).
  destruct (click_behaviour b 1200 90 100 once) as (Hshown & _ & Hfast & _).
  destruct (Hfast ltac:(vm_compute; reflexivity)) as (_ & delta & Hseek & _ & Hdir).
  subst twice once. split; [exact Hnone|]. split; [|exact Hshown].
  rewrite Hseek, Hnone.
  replace delta with 10%Z; [reflexivity|].
  symmetry. apply Hdir. vm_compute. intros H. now apply H.
Defined.

(** ** Messages from the live session *)

Section MessageFacts.
Import LiveMessages.

Lemma tool_calls_spec (calls : list FunctionCall) :
  tool_calls calls =
  (map (fun fc => OnChangeChannel (channelId fc))
       (List.filter (fun fc => String.eqb (call_name fc) "changeChannel") calls),
   map (fun fc => mkResponse (call_id fc) "changeChannel"
                             "Channel changed successfully")
       (List.filter (fun fc => String.eqb (call_name fc) "changeChannel") calls)).
Proof.
  induction calls as [|fc calls IH]; [reflexivity|].
  cbn [tool_calls List.filter]. rewrite IH.
  destruct (String.eqb_spec (call_name fc) "changeChannel") as [Heq|];
    [|reflexivity].
  cbn [map]. now rewrite Heq.
Qed.

Lemma onAudio_keeps_tracking (decodes : bool)
  (s : GeminiLive.Service) (n : GeminiLive.Native) :
  GeminiLive.startedSources n ⊆ GeminiLive.sources s ->
  GeminiLive.startedSources (snd (GeminiLive.onAudio decodes s n))
  ⊆ GeminiLive.sources (fst (GeminiLive.onAudio decodes s n)).
Proof.
  intros H. unfold GeminiLive.onAudio.
  destruct (GeminiLive.outputAudioContext s); [|exact H].
  destruct decodes; [|exact H]. simpl. set_solver.
Qed.

Lemma onAudio_keeps_stream (decodes : bool)
  (s : GeminiLive.Service) (n : GeminiLive.Native) :
  GeminiLive.liveStreams (snd (GeminiLive.onAudio decodes s n))
  = GeminiLive.liveStreams n /\
  GeminiLive.openSessions (snd (GeminiLive.onAudio decodes s n))
  = GeminiLive.openSessions n.
Proof.
  unfold GeminiLive.onAudio.
  destruct (GeminiLive.outputAudioContext s); [|now split].
  destruct decodes; now split.
Qed.

End MessageFacts.

(** X21.  Every function call named "changeChannel" in a message triggers
    one channel-change callback with its channel id and one acknowledgement
    carrying its call id, in the order of the calls; calls of any other
    name trigger neither.  The acknowledgement carries the same fixed
    text, whatever the channel id is. *)
Theorem tool_calls_acknowledged
  (m : LiveMessages.Message) (s : GeminiLive.Service) (n : GeminiLive.Native) :
  let calls := match LiveMessages.toolCall m with
               | Some calls => calls
               | None => []
               end in
  let requested :=
    List.filter
      (fun fc => String.eqb (LiveMessages.call_name fc) "changeChannel")
      calls in
  exists s' n' transcripts,
    LiveMessages.onmessage m s n =
    (s', n',
     transcripts ++
       map (fun fc => LiveMessages.OnChangeChannel (LiveMessages.channelId fc))
           requested,
     map (fun fc => LiveMessages.mkResponse (LiveMessages.call_id fc)
                      "changeChannel" "Channel changed successfully")
         requested) /\
    Forall (fun cb => exists text, cb = LiveMessages.OnTranscript text false)
           transcripts.
Proof.
  intros calls requested. subst requested calls.
  unfold LiveMessages.onmessage.
  destruct (LiveMessages.toolCall m) as [calls|]; [rewrite tool_calls_spec|];
    match goal with
    | |- context [match LiveMessages.audio m with
                  | Some d => GeminiLive.onAudio d s n
                  | None => (s, n) end] =>
        destruct (match LiveMessages.audio m with
                  | Some d => GeminiLive.onAudio d s n
                  | None => (s, n) end) as [s1 n1]
    end;
    destruct (if LiveMessages.interrupted m
              then GeminiLive.stopAudioOutput s1 n1 else (s1, n1)) as [s2 n2];
    eexists s2, n2, _; (split; [reflexivity|]);
    destruct (LiveMessages.inputTranscription m) as [text|];
    try (destruct (JsString.truthy text));
    repeat constructor; eauto.
Qed.

(** X22.  An interrupted message flushes the playback queue, even when the
    same message carries audio: afterwards the service holds no scheduled
    source and the next start time is back to zero; if every started
    source was in the service's set, none is left playing.  The
    microphone stream and the session are not touched. *)
Theorem interrupted_flushes_playback
  (m : LiveMessages.Message) (s : GeminiLive.Service) (n : GeminiLive.Native) :
  LiveMessages.interrupted m = true ->
  let s' := fst (fst (fst (LiveMessages.onmessage m s n))) in
  let n' := snd (fst (fst (LiveMessages.onmessage m s n))) in
  GeminiLive.sources s' = ∅ /\
  GeminiLive.nextStartTime s' = 0%Q /\
  GeminiLive.liveStreams n' = GeminiLive.liveStreams n /\
  GeminiLive.openSessions n' = GeminiLive.openSessions n /\
  (GeminiLive.startedSources n ⊆ GeminiLive.sources s ->
   GeminiLive.startedSources n' = ∅).
Proof.
  intros Hint. unfold LiveMessages.onmessage. rewrite Hint.
  destruct (match LiveMessages.toolCall m with
            | Some calls => LiveMessages.tool_calls calls
            | None => ([], [])
            end) as [callbacks responses].
  assert (Haudio :
    exists s1 n1,
      match LiveMessages.audio m with
      | Some d => GeminiLive.onAudio d s n
      | None => (s, n)
      end = (s1, n1) /\
      GeminiLive.liveStreams n1 = GeminiLive.liveStreams n /\
      GeminiLive.openSessions n1 = GeminiLive.openSessions n /\
      (GeminiLive.startedSources n ⊆ GeminiLive.sources s ->
       GeminiLive.startedSources n1 ⊆ GeminiLive.sources s1)).
  { destruct (LiveMessages.audio m) as [d|].
    - exists (fst (GeminiLive.onAudio d s n)), (snd (GeminiLive.onAudio d s n)).
      split; [now destruct (GeminiLive.onAudio d s n)|].
      destruct (onAudio_keeps_stream d s n) as [H1 H2].
      split; [exact H1|]. split; [exact H2|]. apply onAudio_keeps_tracking.
    - exists s, n. auto. }
  destruct Haudio as (s1 & n1 & -> & H1 & H2 & H3). simpl.
  split; [reflexivity|]. split; [reflexivity|].
  split; [exact H1|]. split; [exact H2|].
  intros Htracked. specialize (H3 Htracked). set_solver.
Qed.

Lemma interrupted_flushes_playback_witness :
  let connected :=
    VoiceRemote.sessionOpened
      (VoiceRemote.toggleConnection Reference.granted VoiceRemote.initial) in
  let speaking :=
    GeminiLive.onAudio true (VoiceRemote.service connected)
      (VoiceRemote.native connected) in
  let m := LiveMessages.mkMessage None None (Some true) true in
  GeminiLive.sources (fst speaking) = {[6]} /\
  GeminiLive.sources
    (fst (fst (fst (LiveMessages.onmessage m (fst speaking) (snd speaking)))))
  = ∅ /\
  GeminiLive.startedSources
    (snd (fst (fst (LiveMessages.onmessage m (fst speaking) (snd speaking)))))
  = ∅.
Proof.
  intros connected speaking m.
  destruct (interrupted_flushes_playback m (fst speaking) (snd speaking)
              eq_refl) as (Hsources & _ & _ & _ & Hstopped).
  split; [|split; [exact Hsources|]].
  - simpl. apply set_eq. intros x. set_solver.
  - apply Hstopped. simpl. set_solver.
Defined.

(** ** The explicit stop of the voice remote *)

Lemma toggleConnection_stop_releases_witness :
  let connected :=
    VoiceRemote.sessionOpened
      (VoiceRemote.toggleConnection Reference.granted VoiceRemote.initial) in
  VoiceRemote.status connected = CONNECTED /\
  GeminiLive.liveStreams (VoiceRemote.native connected) <> ∅ /\
  VoiceRemote.status (VoiceRemote.toggleConnection Reference.granted connected)
  = DISCONNECTED /\
  VoiceRemote.released
    (VoiceRemote.native
       (VoiceRemote.toggleConnection Reference.granted connected)).
Proof.
  intros connected.
  split; [reflexivity|]. split; [simpl; set_solver|].
  apply (toggleConnection_stop_releases Reference.granted connected).
  - left. reflexivity.
  - unfold tracked, held_by. simpl. repeat split; set_solver.
Defined.

(** ** The earlier storage service *)

Section StorageServiceFacts.
Variable J : JsonCodec.

Lemma getChannels_stored (w : World) (text : string) (v : JsonValue) :
  Sources.readable w ->
  items (localStorage w) !! StorageService.STORAGE_KEY = Some text ->
  JsString.truthy text = true ->
  JSON_parse J text = Some v ->
  StorageService.getChannels J w = (Return v, w).
Proof.
  intros Hr Hitem Htruthy Hparse.
  unfold StorageService.getChannels, bind, try_catch, getItem, parse.
  cbv zeta. rewrite Hr, Hitem, Htruthy, Hparse. reflexivity.
Qed.

Lemma getChannels_absent (w : World) :
  denied (localStorage w) = true \/
  items (localStorage w) !! StorageService.STORAGE_KEY = None ->
  StorageService.getChannels J w = (Return (JArray DEFAULT_CHANNELS), w).
Proof.
  unfold StorageService.getChannels, bind, try_catch, getItem. cbv zeta.
  intros [Hd | Hnone].
  - rewrite Hd. reflexivity.
  - destruct (denied (localStorage w)); [reflexivity|].
    rewrite Hnone. reflexivity.
Qed.

End StorageServiceFacts.

(** X24.  The earlier storage service reads back what it saved, whatever
    the collection, the empty one included, when local storage takes the
    text and the codec reads back what it wrote; the load leaves the store
    as the save left it. *)
Theorem storage_service_roundtrip
  (J : JsonCodec) (cs : list Channel) (w : World) :
  Sources.accepts w StorageService.STORAGE_KEY (JSON_stringify J cs) ->
  Sources.reads_back J cs ->
  exists w',
    StorageService.saveChannels J cs w = (Return tt, w') /\
    StorageService.getChannels J w' = (Return (JArray cs), w').
Proof.
  intros Hacc [Hrt Htext].
  unfold StorageService.saveChannels, try_catch.
  rewrite (setItem_accepted _ _ _ Hacc). eexists. split; [reflexivity|].
  apply getChannels_stored with (text := JSON_stringify J cs).
  - apply Hacc.
  - simpl. apply lookup_insert_eq.
  - destruct (JSON_stringify J cs); [congruence | reflexivity].
  - exact Hrt.
Qed.

Lemma storage_service_roundtrip_witness :
  let w := mkWorld (Reference.roomy ∅) Reference.offline in
  exists w',
    StorageService.saveChannels Reference.codec [] w = (Return tt, w') /\
    StorageService.getChannels Reference.codec w' = (Return (JArray []), w').
Proof.
  intros w.
  apply (storage_service_roundtrip Reference.codec [] w).
  - split; [reflexivity | vm_compute; discriminate].
  - split; [vm_compute; reflexivity | vm_compute; discriminate].
Defined.

(** X25.  The load of the earlier storage service never throws and never
    writes: it returns a value and leaves local storage and the network as
    they were.  When storage may not be read, or holds nothing under the
    key, the value is the built-in list. *)
Theorem getChannels_never_throws (J : JsonCodec) (w : World) :
  (exists v, StorageService.getChannels J w = (Return v, w)) /\
  (denied (localStorage w) = true \/
   items (localStorage w) !! StorageService.STORAGE_KEY = None ->
   StorageService.getChannels J w = (Return (JArray DEFAULT_CHANNELS), w)).
Proof.
  split; [|apply getChannels_absent].
  unfold StorageService.getChannels, bind, try_catch, getItem, parse, ret, throw.
  cbv zeta.
  destruct (denied (localStorage w)); [eauto|].
  destruct (items (localStorage w) !! StorageService.STORAGE_KEY) as [text|];
    [|eauto].
  destruct (JsString.truthy text); [|eauto].
  destruct (JSON_parse J text); eauto.
Qed.

(** X26.  [reset] has no handler of its own: when local storage may not
    be accessed it throws and changes nothing.  Otherwise it removes the
    stored text, keeps every other key, and a load that follows returns
    the built-in list. *)
Theorem reset_then_getChannels (J : JsonCodec) (w : World) :
  (denied (localStorage w) = true ->
   StorageService.reset w = (Throw SecurityError, w)) /\
  (denied (localStorage w) = false ->
   exists w',
     StorageService.reset w = (Return DEFAULT_CHANNELS, w') /\
     items (localStorage w') !! StorageService.STORAGE_KEY = None /\
     (forall key, key <> StorageService.STORAGE_KEY ->
        items (localStorage w') !! key = items (localStorage w) !! key) /\
     StorageService.getChannels J w'
     = (Return (JArray DEFAULT_CHANNELS), w')).
Proof.
  unfold StorageService.reset, bind, removeItem. cbv zeta. split; intros Hd;
    rewrite Hd; [reflexivity|].
  eexists. split; [reflexivity|].
  assert (Hgone :
    items (localStorage
      (set_localStorage w
         (set_items (localStorage w)
            (delete StorageService.STORAGE_KEY (items (localStorage w))))))
    !! StorageService.STORAGE_KEY = None)
    by (simpl; apply lookup_delete_eq).
  split; [exact Hgone|]. split.
  - intros key Hkey. simpl. now apply lookup_delete_ne.
  - apply getChannels_absent. right. exact Hgone.
Qed.
